(** * Order decision window: countdown timer, swipe-to-accept gesture and
      status requests of [NewOrderModal], [OrderDetailsModal] and
      [OrdersScreen]

    The two modal components carry the same timer and swipe code; they differ
    in the countdown length (600 and 150 ticks), in the guards on the order and
    in what a click on the backdrop does.  The development models one mounted
    component as a record of its React state and refs, the browser's table of
    active interval timers as a finite map, and every handler, effect and
    cleanup as a function on those.

    Conventions of the model:
    - an event (a DOM event, an interval firing, a render by the owner) runs to
      completion: the handler, then the render and the effects it causes;
    - a state updater passed to [setTimeLeft] is applied once, when the
      interval fires;
    - an effect runs on mount and whenever one of its dependencies changed
      ([Object.is]); its cleanup runs before the next run and on unmount;
    - what the components call on their owner ([onUpdateStatus], [onClose]) is
      the output of a step; what the owner does with it is the owner's, and
      is modelled for [OrdersScreen]. *)

From Stdlib Require Import ZArith Lia List String Bool Ascii.
From Stdlib Require Import Floats.
From stdpp Require Import base option gmap strings pretty.
Import ListNotations.

Local Open Scope Z_scope.

(** ** JavaScript numbers

    Pointer coordinates and [offsetWidth]s are integer CSS pixels and are kept
    in [Z]; subtraction, [Math.min] and [Math.max] are exact on them.  The one
    rounding operation of the code is [sliderWidth * 0.7]: the literal [0.7] is
    the binary64 number [M07 * 2^-53], and the product is rounded to 53
    significant bits, ties to even.  The product is kept as an integer count of
    [2^-53] pixels. *)

Definition M07 : Z := 6305039478318694.

Definition scale (n : Z) : Z := n * 2 ^ 53.

(** Round a non-negative count [P] of [2^-53] units to 53 significant bits. *)
Definition round53 (P : Z) : Z :=
  if P <? 2 ^ 53 then P
  else
    let s := Z.log2 P - 52 in
    let q := P / 2 ^ s in
    let r := P mod 2 ^ s in
    let up := (2 ^ s <? 2 * r) || ((2 * r =? 2 ^ s) && Z.odd q) in
    (if up then q + 1 else q) * 2 ^ s.

(** [sliderWidth * 0.7], in units of [2^-53] pixels. *)
Definition mul_0_7 (sliderWidth : Z) : Z := round53 (sliderWidth * M07).

(** The value of a finite non-negative binary64 number in the same unit, used
    to compare [mul_0_7] with the kernel's own binary64 multiplication. *)
Definition float_scaled (f : float) : option Z :=
  match Prim2SF f with
  | S754_zero _ => Some 0
  | S754_finite false m e =>
      if 0 <=? e + 53 then Some (Z.pos m * 2 ^ (e + 53)) else None
  | _ => None
  end.

Definition float_of_px (n : Z) : float := PrimFloat.of_uint63 (Uint63.of_Z n).

Definition mul_0_7_agrees (w : Z) : bool :=
  match float_scaled (PrimFloat.mul (float_of_px w) 0x1.6666666666666p-1%float) with
  | Some t => t =? mul_0_7 w
  | None => false
  end.

(** ** Orders and the requests the components issue *)

Inductive OrderStatus := NEW | PREPARING | READY_FOR_PICKUP | COMPLETED | REJECTED.

#[global] Instance OrderStatus_eq_dec : EqDecision OrderStatus.
Proof. solve_decision. Defined.

(** An order object: [obj] is the identity of the JavaScript object (React
    compares the [order] dependency with [Object.is]); the payload the
    components only display is left out. *)
Record Order := mkOrder { obj : nat; order_id : string; status : OrderStatus }.

(** What a component calls on its owner: [onUpdateStatus(orderId, status)] and,
    for the details view, [onClose()]. *)
Inductive Call :=
| UpdateStatus (orderId : string) (target : OrderStatus)
| OnClose.

#[global] Instance Call_eq_dec : EqDecision Call.
Proof. solve_decision. Defined.

(** [onUpdateStatus] is a function value; only its identity matters (it is a
    dependency of the timer effect). *)
Record Props := mkProps { isOpen : bool; order : option Order; onUpdateStatus : nat }.

Inductive Surface := NewOrderModal | OrderDetailsModal.

(** [setTimeLeft(600)] in [NewOrderModal], [setTimeLeft(150)] in
    [OrderDetailsModal]. *)
Definition surfaceDuration (s : Surface) : Z :=
  match s with NewOrderModal => 600 | OrderDetailsModal => 150 end.

(** ** The browser's interval timers

    [timers] is the window's map of active timers; the value is what the
    callback closed over (the props of the render whose effect created it). *)
Record Window := mkWindow { timers : gmap positive Props; nextTimer : positive }.

Definition setInterval (closure : Props) (w : Window) : positive * Window :=
  (nextTimer w,
   {| timers := <[nextTimer w := closure]> (timers w);
      nextTimer := Pos.succ (nextTimer w) |}).

Definition clearInterval (i : positive) (w : Window) : Window :=
  {| timers := delete i (timers w); nextTimer := nextTimer w |}.

(** [if (timerIntervalRef.current) clearInterval(timerIntervalRef.current)];
    also [clearInterval(timerIntervalRef.current!)], which does nothing on
    [null]. *)
Definition clearIntervalRef (r : option positive) (w : Window) : Window :=
  match r with Some i => clearInterval i w | None => w end.

(** ** Component state: [useState] cells and [useRef] cells *)
Record Component := mkComponent {
  timeLeft : Z;
  timerIntervalRef : option positive;
  isSwiping : bool;
  swipeStartX : Z;
  swipeDeltaRef : Z;
  handleTranslateX : Z
}.

Definition set_timeLeft (v : Z) (c : Component) : Component :=
  mkComponent v (timerIntervalRef c) (isSwiping c) (swipeStartX c) (swipeDeltaRef c)
    (handleTranslateX c).

Definition set_timerIntervalRef (v : option positive) (c : Component) : Component :=
  mkComponent (timeLeft c) v (isSwiping c) (swipeStartX c) (swipeDeltaRef c)
    (handleTranslateX c).

Definition set_isSwiping (v : bool) (c : Component) : Component :=
  mkComponent (timeLeft c) (timerIntervalRef c) v (swipeStartX c) (swipeDeltaRef c)
    (handleTranslateX c).

Definition set_swipeStartX (v : Z) (c : Component) : Component :=
  mkComponent (timeLeft c) (timerIntervalRef c) (isSwiping c) v (swipeDeltaRef c)
    (handleTranslateX c).

Definition set_swipeDeltaRef (v : Z) (c : Component) : Component :=
  mkComponent (timeLeft c) (timerIntervalRef c) (isSwiping c) (swipeStartX c) v
    (handleTranslateX c).

Definition set_handleTranslateX (v : Z) (c : Component) : Component :=
  mkComponent (timeLeft c) (timerIntervalRef c) (isSwiping c) (swipeStartX c)
    (swipeDeltaRef c) v.

(** [offsetWidth] of the slider track and of the handle. *)
Record Geometry := mkGeometry { sliderWidth : Z; handleWidth : Z }.

(** ** The component code, shared by the two surfaces *)

Section Modal.

Variable surface : Surface.

(** The countdown length of the surface, in ticks of 100 ms. *)
Variable duration : Z.

Definition hasOrder (p : Props) : bool :=
  match order p with Some _ => true | None => false end.

Definition statusIs (s : OrderStatus) (p : Props) : bool :=
  match order p with Some o => bool_decide (status o = s) | None => false end.

(** [isOpen && order], resp. [isOpen && order.status === OrderStatus.NEW]. *)
Definition timerCondition (p : Props) : bool :=
  match surface with
  | NewOrderModal => isOpen p && hasOrder p
  | OrderDetailsModal => isOpen p && statusIs NEW p
  end.

(** [Object.is] on the [order] dependency. *)
Definition sameObject (a b : option Order) : bool :=
  match a, b with
  | None, None => true
  | Some x, Some y => Nat.eqb (obj x) (obj y)
  | _, _ => false
  end.

Definition sameIdStatus (a b : option Order) : bool :=
  match a, b with
  | None, None => true
  | Some x, Some y =>
      bool_decide (order_id x = order_id y) && bool_decide (status x = status y)
  | _, _ => false
  end.

(** The dependency lists [[isOpen, order, handleCloseAndReject]] (the callback
    is memoised on [[order, onUpdateStatus]]) and
    [[isOpen, order.id, order.status, onUpdateStatus]]. *)
Definition timerDepsChanged (old new : Props) : bool :=
  negb (Bool.eqb (isOpen old) (isOpen new)
        && match surface with
           | NewOrderModal => sameObject (order old) (order new)
           | OrderDetailsModal => sameIdStatus (order old) (order new)
           end
        && Nat.eqb (onUpdateStatus old) (onUpdateStatus new)).

Definition handleCloseAndReject (p : Props) : list Call :=
  match order p with
  | Some o => [UpdateStatus (order_id o) REJECTED]
  | None => []
  end.

(** What the interval callback calls when the countdown runs out:
    [handleCloseAndReject()], resp.
    [onUpdateStatus(order.id, OrderStatus.REJECTED)]. *)
Definition onExpire (closure : Props) : list Call :=
  match surface with
  | NewOrderModal => handleCloseAndReject closure
  | OrderDetailsModal =>
      match order closure with
      | Some o => [UpdateStatus (order_id o) REJECTED]
      | None => []
      end
  end.

(** The interval callback: [setTimeLeft(prev => ...)]. *)
Definition intervalCallback (closure : Props) (c : Component) (w : Window)
  : Component * Window * list Call :=
  if timeLeft c <=? 1
  then (set_timeLeft 0 c, clearIntervalRef (timerIntervalRef c) w, onExpire closure)
  else (set_timeLeft (timeLeft c - 1) c, w, []).

(** The body of the timer effect. *)
Definition timerEffect (p : Props) (c : Component) (w : Window) : Component * Window :=
  if timerCondition p then
    let c1 := set_timeLeft duration c in
    let w1 := clearIntervalRef (timerIntervalRef c1) w in
    let '(i, w2) := setInterval p w1 in
    (set_timerIntervalRef (Some i) c1, w2)
  else (c, w).

(** The function the timer effect returns. *)
Definition timerCleanup (c : Component) (w : Window) : Window :=
  clearIntervalRef (timerIntervalRef c) w.

(** ** Swipe handlers *)

Definition swipeStartGuard (p : Props) : bool :=
  match surface with
  | NewOrderModal => hasOrder p
  | OrderDetailsModal => statusIs NEW p
  end.

Definition handleSwipeStart (p : Props) (clientX : Z) (c : Component) : Component :=
  if negb (swipeStartGuard p) then c
  else set_isSwiping true (set_swipeStartX clientX c).

(** [swipeDeltaRef.current > acceptanceThreshold], the threshold being
    [sliderWidth * 0.7]. *)
Definition overThreshold (delta sliderWidth : Z) : bool :=
  mul_0_7 sliderWidth <? scale delta.

Definition swipeEndGuard (p : Props) (c : Component) : bool :=
  match surface with
  | NewOrderModal => isSwiping c && hasOrder p
  | OrderDetailsModal => isSwiping c
  end.

(** [sliderRef] is the [offsetWidth] of [sliderRef.current], [None] when the
    ref is [null]. *)
Definition handleSwipeEnd (p : Props) (sliderRef : option Z) (c : Component)
  : Component * list Call :=
  if negb (swipeEndGuard p c) then (c, [])
  else
    let c1 := set_isSwiping false c in
    match sliderRef with
    | Some sliderWidth =>
        if overThreshold (swipeDeltaRef c1) sliderWidth
        then (c1, match order p with
                  | Some o => [UpdateStatus (order_id o) PREPARING]
                  | None => []
                  end)
        else (set_handleTranslateX 0 c1, [])
    | None => (c1, [])
    end.

Definition handleSwipeMove (sliderRef handleRef : option Z) (clientX : Z) (c : Component)
  : Component :=
  if negb (isSwiping c) then c
  else
    let delta := clientX - swipeStartX c in
    match sliderRef, handleRef with
    | Some sliderWidth, Some handleWidth =>
        let maxSwipe := sliderWidth - handleWidth in
        let delta := Z.max 0 (Z.min delta maxSwipe) in
        set_handleTranslateX delta (set_swipeDeltaRef delta c)
    | _, _ => c
    end.

(** ** One mounted instance in its window *)

Record Modal := mkModal {
  mounted : bool;
  props : Props;
  comp : Component;
  win : Window
}.

(** [if (!isOpen || !order) return null], resp. [if (!isOpen) return null]. *)
Definition modalRendered (p : Props) : bool :=
  match surface with
  | NewOrderModal => isOpen p && hasOrder p
  | OrderDetailsModal => isOpen p
  end.

(** The slider is part of the modal; in the details view [ActionButtons]
    renders it for [OrderStatus.NEW] only. *)
Definition sliderRendered (p : Props) : bool :=
  match surface with
  | NewOrderModal => modalRendered p
  | OrderDetailsModal => modalRendered p && statusIs NEW p
  end.

Definition refWidth (p : Props) (width : Z) : option Z :=
  if sliderRendered p then Some width else None.

Inductive Event :=
| Mount (p : Props)
| Render (p : Props)
| Unmount
| IntervalFires (i : positive)
| SwipeStart (clientX : Z)
| SwipeMove (clientX : Z)
| SwipeEnd
| BackdropClick
| CloseButtonClick
| ReadyForPickupClick
| MarkCompletedClick.

Definition initialComponent : Component :=
  mkComponent duration None false 0 0 0.

Definition unmountedModal (w : Window) : Modal :=
  mkModal false (mkProps false None 0) initialComponent w.

Definition freshWindow : Window := mkWindow ∅ 1%positive.

Definition orderCall (p : Props) (target : OrderStatus) : list Call :=
  match order p with
  | Some o => [UpdateStatus (order_id o) target]
  | None => []
  end.

(** One event, run to completion: the handler, then the render and the
    effects it causes. *)
Definition step (g : Geometry) (m : Modal) (e : Event) : Modal * list Call :=
  match e with
  | Mount p =>
      if mounted m then (m, [])
      else
        let '(c, w) := timerEffect p initialComponent (win m) in
        (mkModal true p c w, [])
  | Render p =>
      if mounted m then
        if timerDepsChanged (props m) p then
          let w1 := timerCleanup (comp m) (win m) in
          let '(c, w2) := timerEffect p (comp m) w1 in
          (mkModal true p c w2, [])
        else (mkModal true p (comp m) (win m), [])
      else (m, [])
  | Unmount =>
      if mounted m
      then (mkModal false (props m) (comp m) (timerCleanup (comp m) (win m)), [])
      else (m, [])
  | IntervalFires i =>
      match timers (win m) !! i with
      | Some closure =>
          let '(c, w, calls) := intervalCallback closure (comp m) (win m) in
          (mkModal (mounted m) (props m) c w, calls)
      | None => (m, [])
      end
  | SwipeStart x =>
      if mounted m && sliderRendered (props m)
      then (mkModal true (props m) (handleSwipeStart (props m) x (comp m)) (win m), [])
      else (m, [])
  | SwipeMove x =>
      if mounted m
      then (mkModal true (props m)
              (handleSwipeMove (refWidth (props m) (sliderWidth g))
                 (refWidth (props m) (handleWidth g)) x (comp m))
              (win m), [])
      else (m, [])
  | SwipeEnd =>
      if mounted m
      then
        let '(c, calls) :=
          handleSwipeEnd (props m) (refWidth (props m) (sliderWidth g)) (comp m) in
        (mkModal true (props m) c (win m), calls)
      else (m, [])
  | BackdropClick =>
      if mounted m && modalRendered (props m)
      then (m, match surface with
               | NewOrderModal => handleCloseAndReject (props m)
               | OrderDetailsModal => [OnClose]
               end)
      else (m, [])
  | CloseButtonClick =>
      if mounted m && modalRendered (props m)
      then (m, match surface with
               | NewOrderModal => []
               | OrderDetailsModal => [OnClose]
               end)
      else (m, [])
  | ReadyForPickupClick =>
      if mounted m && modalRendered (props m) && statusIs PREPARING (props m)
      then (m, match surface with
               | NewOrderModal => []
               | OrderDetailsModal => orderCall (props m) READY_FOR_PICKUP
               end)
      else (m, [])
  | MarkCompletedClick =>
      if mounted m && modalRendered (props m) && statusIs READY_FOR_PICKUP (props m)
      then (m, match surface with
               | NewOrderModal => []
               | OrderDetailsModal => orderCall (props m) COMPLETED
               end)
      else (m, [])
  end.

(** A run of events, with every call issued on the way, in order. *)
Fixpoint run (g : Geometry) (m : Modal) (es : list Event) : Modal * list Call :=
  match es with
  | [] => (m, [])
  | e :: es' =>
      let '(m1, calls1) := step g m e in
      let '(m2, calls2) := run g m1 es' in
      (m2, calls1 ++ calls2)
  end.

End Modal.

(** ** [OrdersScreen] around its [OrderDetailsModal]

    The screen renders the modal while [selectedOrder] is set, with
    [isOpen = !!selectedOrder], [order = selectedOrder],
    [onClose = () => setSelectedOrder(null)] and
    [onUpdateStatus = handleUpdateStatus], a function made anew by every
    render of the screen. *)

Record OrdersScreen := mkScreen {
  selectedOrder : option Order;
  detail : Modal;
  renderCount : nat
}.

Inductive ScreenEvent :=
| CardClick (o : Order)
| ScreenRender
| ModalEvent (e : Event).

(** Events that reach the modal from the user or the browser; mounting and
    rendering are the screen's doing. *)
Definition userEvent (e : Event) : bool :=
  match e with
  | Mount _ | Render _ | Unmount => false
  | _ => true
  end.

Definition detailProps (o : Order) (render : nat) : Props :=
  mkProps true (Some o) render.

(** [handleUpdateStatus]: [onUpdateStatus(orderId, status)], then
    [setSelectedOrder(null)].  The result is what is called on the screen's
    owner and the new selection. *)
Definition handleUpdateStatus (orderId : string) (status : OrderStatus)
  : list Call * option Order :=
  ([UpdateStatus orderId status], None).

(** [onClose]: [() => setSelectedOrder(null)]. *)
Definition onClose : list Call * option Order := ([], None).

(** The calls of the modal, handled by the screen in order. *)
Fixpoint ownerCalls (calls : list Call) (sel : option Order) : list Call * option Order :=
  match calls with
  | [] => ([], sel)
  | c :: rest =>
      let '(out1, sel1) :=
        match c with
        | UpdateStatus orderId status => handleUpdateStatus orderId status
        | OnClose => onClose
        end in
      let '(out2, sel2) := ownerCalls rest sel1 in
      (out1 ++ out2, sel2)
  end.

(** The status requests among the calls. *)
Definition forwarded (calls : list Call) : list Call :=
  List.filter (fun c => match c with UpdateStatus _ _ => true | OnClose => false end) calls.

(** Render the screen with the given selection. *)
Definition renderScreen (g : Geometry) (sel : option Order) (n : nat) (m : Modal) : Modal :=
  match sel with
  | Some o =>
      if mounted m
      then fst (step OrderDetailsModal 150 g m (Render (detailProps o n)))
      else fst (step OrderDetailsModal 150 g m (Mount (detailProps o n)))
  | None => fst (step OrderDetailsModal 150 g m Unmount)
  end.

Definition screenStep (g : Geometry) (s : OrdersScreen) (e : ScreenEvent)
  : OrdersScreen * list Call :=
  match e with
  | CardClick o =>
      let n := S (renderCount s) in
      (mkScreen (Some o) (renderScreen g (Some o) n (detail s)) n, [])
  | ScreenRender =>
      let n := S (renderCount s) in
      (mkScreen (selectedOrder s) (renderScreen g (selectedOrder s) n (detail s)) n, [])
  | ModalEvent ev =>
      if userEvent ev then
        let '(m, calls) := step OrderDetailsModal 150 g (detail s) ev in
        match calls with
        | [] => (mkScreen (selectedOrder s) m (renderCount s), [])
        | _ :: _ =>
            let '(out, sel) := ownerCalls calls (selectedOrder s) in
            let n := S (renderCount s) in
            (mkScreen sel (renderScreen g sel n m) n, out)
        end
      else (s, [])
  end.

Fixpoint screenRun (g : Geometry) (s : OrdersScreen) (es : list ScreenEvent)
  : OrdersScreen * list Call :=
  match es with
  | [] => (s, [])
  | e :: es' =>
      let '(s1, calls1) := screenStep g s e in
      let '(s2, calls2) := screenRun g s1 es' in
      (s2, calls1 ++ calls2)
  end.

Definition initialScreen : OrdersScreen :=
  mkScreen None (unmountedModal 150 freshWindow) 0.

Definition isCardClick (e : ScreenEvent) : bool :=
  match e with CardClick _ => true | _ => false end.


(** ** The order store

    Modelled from the spec: the implementation of [onUpdateStatus] (the
    store's [requestStatusTransition], in the application root) is not among
    the sources; [OrdersScreen] and the modals only call it.  The definitions
    below follow sections 4.3, 4.4 and 6 of the specification. *)

Definition legalEdge (current target : OrderStatus) : bool :=
  match current, target with
  | NEW, PREPARING
  | NEW, REJECTED
  | PREPARING, READY_FOR_PICKUP
  | READY_FOR_PICKUP, COMPLETED => true
  | _, _ => false
  end.

(** The legal-edge table, as a list. *)
Definition legalEdges : list (OrderStatus * OrderStatus) :=
  [(NEW, PREPARING); (NEW, REJECTED); (PREPARING, READY_FOR_PICKUP);
   (READY_FOR_PICKUP, COMPLETED)].

Inductive TransitionResult :=
| Success (newStatus : OrderStatus)
| InvalidTransitionError.

Definition transition (current target : OrderStatus) : TransitionResult :=
  if legalEdge current target then Success target else InvalidTransitionError.

Definition requestStatusTransition
  (store : gmap string OrderStatus) (orderId : string) (target : OrderStatus)
  : gmap string OrderStatus * TransitionResult :=
  match store !! orderId with
  | Some current =>
      match transition current target with
      | Success s => (<[orderId := s]> store, Success s)
      | InvalidTransitionError => (store, InvalidTransitionError)
      end
  | None => (store, InvalidTransitionError)
  end.

(** ** Notions used in the statements *)

(** [n] firings of interval [i], nothing else. *)
Definition ticks (i : positive) (n : nat) : list Event := List.repeat (IntervalFires i) n.

Definition isIntervalFires (e : Event) : bool :=
  match e with IntervalFires _ => true | _ => false end.

(** No interval created by the component is active. *)
Definition noTimer (m : Modal) : Prop := timers (win m) = ∅.

(** The stored offset lies in the range the clamp of [handleSwipeMove] allows. *)
Definition offsetInRange (g : Geometry) (c : Component) : Prop :=
  0 <= swipeDeltaRef c <= Z.max 0 (sliderWidth g - handleWidth g).

(** A state the component can be in: what some run of events leads to from
    the unmounted component in a window without timers. *)
Definition reachable (s : Surface) (D : Z) (g : Geometry) (m : Modal) : Prop :=
  exists es, fst (run s D g (unmountedModal D freshWindow) es) = m.

(** The timer effect's cleanup runs and the effect does not start a new
    interval: the component unmounts, or a dependency changed and the
    condition of the effect is false. *)
Definition isCancel (s : Surface) (m : Modal) (e : Event) : bool :=
  match e with
  | Unmount => mounted m
  | Render p => mounted m && timerDepsChanged s (props m) p && negb (timerCondition s p)
  | _ => false
  end.

(** The events that run the body of the timer effect. *)
Definition runsTimerEffect (e : Event) : bool :=
  match e with Mount _ | Render _ => true | _ => false end.

(** Every active interval is the one the ref holds and is older than the next
    identifier; an unmounted component has none. *)
Definition modalInv (m : Modal) : Prop :=
  (forall i closure, timers (win m) !! i = Some closure ->
     timerIntervalRef (comp m) = Some i /\ (i < nextTimer (win m))%positive)
  /\ (mounted m = false -> noTimer m).

(** [Math.max(0, Math.min(delta, maxSwipe))]. *)
Definition clampOffset (delta maxSwipe : Z) : Z := Z.max 0 (Z.min delta maxSwipe).

(** The offsets [handleSwipeMove] writes to the handle for a sequence of
    pointer positions. *)
Fixpoint swipeMoves (sliderRef handleRef : option Z) (c : Component) (xs : list Z)
  : Component * list Z :=
  match xs with
  | [] => (c, [])
  | x :: xs' =>
      let c1 := handleSwipeMove sliderRef handleRef x c in
      let '(c2, ds) := swipeMoves sliderRef handleRef c1 xs' in
      (c2, handleTranslateX c1 :: ds)
  end.

Definition isAccept (c : Call) : bool :=
  match c with UpdateStatus _ PREPARING => true | _ => false end.


(** The modal of the screen is mounted exactly while an order is selected, it
    is then open, and its timers obey [modalInv]. *)
Definition screenInv (s : OrdersScreen) : Prop :=
  modalInv (detail s)
  /\ (selectedOrder s = None -> mounted (detail s) = false)
  /\ (mounted (detail s) = true -> isOpen (props (detail s)) = true).

Definition screenReachable (g : Geometry) (s : OrdersScreen) : Prop :=
  exists es, fst (screenRun g initialScreen es) = s.

Definition isDismiss (e : Event) : bool :=
  match e with BackdropClick | CloseButtonClick => true | _ => false end.

(** ** Sample data *)

Definition order1 : Order := mkOrder 1 "ORD-1" NEW.
Definition order2 : Order := mkOrder 2 "ORD-2" NEW.
Definition props1 : Props := mkProps true (Some order1) 0.
Definition props2 : Props := mkProps true (Some order2) 0.
Definition closedProps : Props := mkProps false None 0.

(** A track of 336 px with the 56 px handle ([w-14]). *)
Definition wideTrack : Geometry := mkGeometry 336 56.

(** The track of scenario B of the specification: 140 px, handle 40 px. *)
Definition scenarioTrack : Geometry := mkGeometry 140 40.

(** A handle of exactly three tenths of its track. *)
Definition boundaryTrack : Geometry := mkGeometry 340 102.

(** [NewOrderModal] thirty ticks into the countdown of the first order. *)
Definition runningModal : Modal :=
  fst (run NewOrderModal 600 wideTrack (unmountedModal 600 freshWindow)
         (Mount props1 :: ticks 1 30)).


(** ** [OrdersScreen]: tabs, cards and the details view *)

(** [const filters = [OrderStatus.NEW, OrderStatus.PREPARING,
    OrderStatus.COMPLETED]]. *)
Definition filters : list OrderStatus := [NEW; PREPARING; COMPLETED].

(** The [useMemo] of [filteredOrders]. *)
Definition filteredOrders (orders : list Order) (activeFilter : OrderStatus) : list Order :=
  if bool_decide (activeFilter = COMPLETED)
  then List.filter
         (fun o => bool_decide (status o = COMPLETED) || bool_decide (status o = REJECTED))
         orders
  else List.filter (fun o => bool_decide (status o = activeFilter)) orders.

(** The [count] of a tab, computed in the [filters.map] of the render. *)
Definition tabCount (orders : list Order) (filter : OrderStatus) : nat :=
  length
    (List.filter
       (fun o =>
          if bool_decide (filter = COMPLETED)
          then bool_decide (status o = COMPLETED) || bool_decide (status o = REJECTED)
          else bool_decide (status o = filter))
       orders).

(** The screen with its [orders] prop and its [activeFilter] state around the
    selection and the details view. *)
Record OrdersView := mkView {
  orders : list Order;
  activeFilter : OrderStatus;
  screen : OrdersScreen
}.

(** What happens to the screen: its owner passes a new [orders] array or just
    renders again, the user clicks the [k]-th tab or the [k]-th card shown, or
    an event reaches the details view. *)
Inductive ViewEvent :=
| OrdersChanged (os : list Order)
| ParentRender
| FilterClick (k : nat)
| CardClickAt (k : nat)
| DetailsEvent (e : Event).

Definition viewStep (g : Geometry) (v : OrdersView) (e : ViewEvent)
  : OrdersView * list Call :=
  match e with
  | OrdersChanged os =>
      let '(s, calls) := screenStep g (screen v) ScreenRender in
      (mkView os (activeFilter v) s, calls)
  | ParentRender =>
      let '(s, calls) := screenStep g (screen v) ScreenRender in
      (mkView (orders v) (activeFilter v) s, calls)
  | FilterClick k =>
      match filters !! k with
      | Some f =>
          (* setActiveFilter(filter): no render when the state is unchanged *)
          if bool_decide (f = activeFilter v) then (v, [])
          else
            let '(s, calls) := screenStep g (screen v) ScreenRender in
            (mkView (orders v) f s, calls)
      | None => (v, [])
      end
  | CardClickAt k =>
      match filteredOrders (orders v) (activeFilter v) !! k with
      | Some o =>
          let '(s, calls) := screenStep g (screen v) (CardClick o) in
          (mkView (orders v) (activeFilter v) s, calls)
      | None => (v, [])
      end
  | DetailsEvent ev =>
      let '(s, calls) := screenStep g (screen v) (ModalEvent ev) in
      (mkView (orders v) (activeFilter v) s, calls)
  end.

Fixpoint viewRun (g : Geometry) (v : OrdersView) (es : list ViewEvent)
  : OrdersView * list Call :=
  match es with
  | [] => (v, [])
  | e :: es' =>
      let '(v1, calls1) := viewStep g v e in
      let '(v2, calls2) := viewRun g v1 es' in
      (v2, calls1 ++ calls2)
  end.

(** [useState<OrderStatus>(OrderStatus.NEW)], [useState<Order | null>(null)]. *)
Definition initialView (os : list Order) : OrdersView := mkView os NEW initialScreen.

(** The edges of the order lifecycle the components request. *)
Definition requestedEdge (current target : OrderStatus) : Prop :=
  (current = NEW /\ (target = PREPARING \/ target = REJECTED))
  \/ (current = PREPARING /\ target = READY_FOR_PICKUP)
  \/ (current = READY_FOR_PICKUP /\ target = COMPLETED).

(** The details view shows the selected order with a [handleUpdateStatus] of
    an earlier render of the screen, and every active interval closes over
    the current props of an order that is [NEW]. *)
Definition detailInv (s : OrdersScreen) : Prop :=
  (mounted (detail s) = true ->
     exists o n, selectedOrder s = Some o /\ props (detail s) = detailProps o n
                 /\ (n <= renderCount s)%nat)
  /\ (selectedOrder s <> None -> mounted (detail s) = true)
  /\ (forall i closure, timers (win (detail s)) !! i = Some closure ->
        closure = props (detail s) /\ statusIs NEW closure = true).

Definition viewInv (v : OrdersView) : Prop :=
  screenInv (screen v) /\ detailInv (screen v)
  /\ In (activeFilter v) filters
  /\ (forall o, selectedOrder (screen v) = Some o -> status o <> READY_FOR_PICKUP).

(** ** [TimeAgo]

    [seconds] is an integer; [seconds / d > 1] on binary64 numbers holds
    exactly when [d < seconds], and [Math.floor(seconds / d)] is the integer
    quotient, for the five divisors of the code and every number of seconds a
    timestamp can give (compared with the kernel's binary64 division
    below). *)

(** [Math.floor((new Date().getTime() - new Date(timestamp).getTime()) / 1000)],
    both times in milliseconds. *)
Definition elapsedSeconds (now timestamp : Z) : Z := (now - timestamp) / 1000.

(** The number and the suffix [formatTimeAgo] puts together. *)
Definition timeAgoParts (seconds : Z) : Z * string :=
  if 31536000 <? seconds then (seconds / 31536000, "y ago")
  else if 2592000 <? seconds then (seconds / 2592000, "m ago")
  else if 86400 <? seconds then (seconds / 86400, "d ago")
  else if 3600 <? seconds then (seconds / 3600, "h ago")
  else if 60 <? seconds then (seconds / 60, "m ago")
  else (seconds, "s ago").

Definition formatTimeAgo (now timestamp : Z) : string :=
  let '(n, suffix) := timeAgoParts (elapsedSeconds now timestamp) in
  pretty n +:+ suffix.

(** The floor of a finite non-negative binary64 number. *)
Definition float_floor (f : float) : option Z :=
  match Prim2SF f with
  | S754_zero _ => Some 0
  | S754_finite false m e =>
      Some (if 0 <=? e then Z.pos m * 2 ^ e else Z.pos m / 2 ^ (- e))
  | _ => None
  end.

(** [seconds / d > 1] and [Math.floor(seconds / d)] on binary64 numbers agree
    with [d < seconds] and the integer quotient. *)
Definition quotient_agrees (d seconds : Z) : bool :=
  let q := PrimFloat.div (float_of_px seconds) (float_of_px d) in
  Bool.eqb (PrimFloat.ltb 1%float q) (d <? seconds)
  && match float_floor q with
     | Some n => n =? seconds / d
     | None => false
     end.

Definition timeAgoDivisors : list Z := [31536000; 2592000; 86400; 3600; 60].

(** ** [OrderStatusChip] *)

(** [text.replace(a, b)] for one-character strings [a] and [b]: the first
    occurrence only. *)
Fixpoint replaceFirst (a b : ascii) (text : string) : string :=
  match text with
  | EmptyString => EmptyString
  | String c rest =>
      if Ascii.eqb c a then String b rest else String c (replaceFirst a b rest)
  end.

(** [status.replace('_', ' ')], on the text of the status. *)
Definition chipText (status : string) : string := replaceFirst "_" " " status.

Fixpoint countChar (a : ascii) (text : string) : nat :=
  match text with
  | EmptyString => 0
  | String c rest => ((if Ascii.eqb c a then 1 else 0) + countChar a rest)%nat
  end.

(** ** The title of [NewOrderModal] *)

(** [name.split(' ')[0]]: the text before the first space. *)
Fixpoint firstSegment (name : string) : string :=
  match name with
  | EmptyString => EmptyString
  | String c rest => if Ascii.eqb c " " then EmptyString else String c (firstSegment rest)
  end.

(** [order.customer.name?.split(' ')[0] || order.id]; a missing name is
    [None]. *)
Definition customerFirstName (name : option string) (orderId : string) : string :=
  match name with
  | Some n =>
      match firstSegment n with
      | EmptyString => orderId
      | first => first
      end
  | None => orderId
  end.

(** ** [getWhatsAppUrl] *)

Definition isDigit (c : ascii) : bool :=
  let n := nat_of_ascii c in (48 <=? n)%nat && (n <=? 57)%nat.

(** [text.replace(/[^0-9]/g, '')]. *)
Fixpoint onlyDigits (text : string) : string :=
  match text with
  | EmptyString => EmptyString
  | String c rest => if isDigit c then String c (onlyDigits rest) else onlyDigits rest
  end.

Definition getWhatsAppUrl (whatsappNumber : string) : string :=
  "https://wa.me/" +:+ onlyDigits whatsappNumber.

Fixpoint allDigits (text : string) : bool :=
  match text with
  | EmptyString => true
  | String c rest => isDigit c && allDigits rest
  end.

(** ** [CatalogScreen]: the search box *)

(** A product, as far as the list filter reads it. *)
Record Product := mkProduct { product_id : string; productName : string; stock : Z }.

(** [text] begins with [query]. *)
Fixpoint startsWith (text query : string) {struct query} : bool :=
  match query with
  | EmptyString => true
  | String q query' =>
      match text with
      | EmptyString => false
      | String c text' => Ascii.eqb c q && startsWith text' query'
      end
  end.

(** [text.includes(query)]: [query] occurs somewhere in [text]. *)
Fixpoint includes (text query : string) : bool :=
  match text with
  | EmptyString => startsWith EmptyString query
  | String _ rest => startsWith text query || includes rest query
  end.

Section Catalog.

(** The translation function [t] of the language context and
    [String.prototype.toLowerCase], both from outside the sources. *)
Variable t : string -> string.
Variable toLowerCase : string -> string.

(** [products.filter(p =>
      t(p.name).toLowerCase().includes(searchQuery.toLowerCase()))]. *)
Definition filteredProducts (products : list Product) (searchQuery : string) : list Product :=
  List.filter
    (fun p => includes (toLowerCase (t (productName p))) (toLowerCase searchQuery))
    products.

End Catalog.

(** Lower case of the ASCII letters, other characters unchanged; used to run
    the filter on examples. *)
Definition asciiLower (c : ascii) : ascii :=
  let n := nat_of_ascii c in
  if (65 <=? n)%nat && (n <=? 90)%nat then ascii_of_nat (n + 32) else c.

Fixpoint asciiToLowerCase (s : string) : string :=
  match s with
  | EmptyString => EmptyString
  | String c rest => String (asciiLower c) (asciiToLowerCase rest)
  end.

(** [OrdersScreen] with the details of the first order open and its handle
    dragged to the end of the track. *)
Definition draggedScreen : OrdersScreen :=
  fst (screenRun wideTrack initialScreen
         [CardClick order1; ModalEvent (SwipeStart 0); ModalEvent (SwipeMove 300)]).

(** [OrderDetailsModal] mounted on an order that is being prepared. *)
Definition preparingProps : Props := mkProps true (Some (mkOrder 3 "ORD-3" PREPARING)) 0.

(** * Properties *)

(** ** [mul_0_7] is the binary64 product

    The rounding above against the kernel's binary64 multiplication, on every
    width up to 4096 px and on some large ones. *)

Example mul_0_7_binary64 :
  forallb mul_0_7_agrees (map Z.of_nat (seq 0 4097)) = true.
Proof. vm_compute. reflexivity. Qed.

Example mul_0_7_binary64_large :
  forallb mul_0_7_agrees [65535; 1000000; 16777217; 1234567890; 2147483646; 2147483647] = true.
Proof. vm_compute. reflexivity. Qed.

(** [90 * 0.7] is [62.99999999999999], below 63. *)
Example mul_0_7_90 : (mul_0_7 90 <? scale 63) = true.
Proof. vm_compute. reflexivity. Qed.

Lemma round53_shift P :
  2 ^ 53 <= P < 2 ^ 85 -> 1 <= Z.log2 P - 52 <= 32.
Proof.
  intros [Hlo Hhi].
  assert (53 <= Z.log2 P) by (apply Z.log2_le_pow2; lia).
  assert (Z.log2 P < 85) by (apply Z.log2_lt_pow2; lia).
  lia.
Qed.

Lemma multiple_of_shift N s :
  0 <= s <= 32 -> (2 ^ 32 | N) -> exists k, N = k * 2 ^ s.
Proof.
  intros Hs [k Hk]. exists (k * 2 ^ (32 - s)).
  rewrite <- Z.mul_assoc, <- Z.pow_add_r by lia.
  now replace (32 - s + s) with 32 by lia.
Qed.

Lemma round53_ge N P :
  0 <= P < 2 ^ 85 -> (2 ^ 32 | N) -> N <= P -> N <= round53 P.
Proof.
  intros HP Hdiv Hle. unfold round53.
  destruct (Z.ltb_spec P (2 ^ 53)) as [|Hbig]; [assumption|].
  pose proof (round53_shift P ltac:(lia)) as Hs.
  set (s := Z.log2 P - 52) in *.
  destruct (multiple_of_shift N s ltac:(lia) Hdiv) as [k ->].
  assert (Ht : 0 < 2 ^ s) by (apply Z.pow_pos_nonneg; lia).
  pose proof (Z.div_mod P (2 ^ s) ltac:(lia)) as Hdm.
  pose proof (Z.mod_pos_bound P (2 ^ s) Ht) as Hr.
  set (t := 2 ^ s) in *. set (q := P / t) in *. set (r := P mod t) in *.
  assert (k <= q) by nia.
  destruct (_ || _); nia.
Qed.


Lemma not_overThreshold w d :
  0 <= w < 2 ^ 31 -> scale d <= w * M07 -> overThreshold d w = false.
Proof.
  intros Hw Hd. unfold overThreshold, mul_0_7.
  apply Z.ltb_ge. apply round53_ge; [unfold M07; lia | | assumption].
  unfold scale. exists (d * 2 ^ 21). lia.
Qed.



Lemma not_overThreshold_nonpos w d :
  0 <= w < 2 ^ 31 -> d <= 0 -> overThreshold d w = false.
Proof.
  intros Hw Hd. apply not_overThreshold; [assumption|]. unfold scale, M07. lia.
Qed.


(** ** Runs *)

Lemma run_app s D g m es1 es2 :
  run s D g m (es1 ++ es2) =
  let '(m1, c1) := run s D g m es1 in
  let '(m2, c2) := run s D g m1 es2 in
  (m2, c1 ++ c2).
Proof.
  revert m. induction es1 as [|e es1 IH]; intros m; simpl.
  - destruct (run s D g m es2); reflexivity.
  - destruct (step s D g m e) as [m1 c1].
    rewrite IH. destruct (run s D g m1 es1) as [m2 c2].
    destruct (run s D g m2 es2) as [m3 c3]. now rewrite app_assoc.
Qed.

Lemma step_tick_dead s D g m i :
  timers (win m) !! i = None -> step s D g m (IntervalFires i) = (m, []).
Proof. intros H. simpl. now rewrite H. Qed.

Lemma run_ticks_noTimer s D g m es :
  noTimer m -> forallb isIntervalFires es = true -> run s D g m es = (m, []).
Proof.
  intros Hno. induction es as [|e es IH]; simpl; [reflexivity|].
  intros H. apply andb_prop in H as [He Hes].
  destruct e; try discriminate.
  rewrite step_tick_dead by (rewrite Hno; apply lookup_empty).
  now rewrite IH.
Qed.

(** ** The countdown *)

Lemma step_tick_running s D g b p c w i closure :
  timers w !! i = Some closure -> 1 < timeLeft c ->
  step s D g (mkModal b p c w) (IntervalFires i)
  = (mkModal b p (set_timeLeft (timeLeft c - 1) c) w, []).
Proof.
  intros Hi Ht. simpl. rewrite Hi. unfold intervalCallback.
  destruct (Z.leb_spec (timeLeft c) 1); [lia | reflexivity].
Qed.

Lemma step_tick_expire s D g b p c w i closure :
  timers w !! i = Some closure -> timeLeft c <= 1 ->
  step s D g (mkModal b p c w) (IntervalFires i)
  = (mkModal b p (set_timeLeft 0 c) (clearIntervalRef (timerIntervalRef c) w),
     onExpire s closure).
Proof.
  intros Hi Ht. simpl. rewrite Hi. unfold intervalCallback.
  destruct (Z.leb_spec (timeLeft c) 1); [reflexivity | lia].
Qed.

Lemma run_ticks_running s D g b p w i closure (k : nat) :
  timers w !! i = Some closure ->
  forall c, Z.of_nat k < timeLeft c ->
  run s D g (mkModal b p c w) (ticks i k)
  = (mkModal b p (set_timeLeft (timeLeft c - Z.of_nat k) c) w, []).
Proof.
  intros Hi. induction k as [|k IH]; intros c Hk.
  - simpl. destruct c; unfold set_timeLeft; simpl. now rewrite Z.sub_0_r.
  - change (ticks i (S k)) with (IntervalFires i :: ticks i k).
    cbn [run]. erewrite step_tick_running by (eauto; lia).
    rewrite IH by (simpl; lia). simpl.
    unfold set_timeLeft; simpl. do 3 f_equal. lia.
Qed.

Lemma cleanup_noTimer c w :
  (forall i closure, timers w !! i = Some closure -> timerIntervalRef c = Some i) ->
  timers (clearIntervalRef (timerIntervalRef c) w) = ∅.
Proof.
  intros H. apply map_empty. intros i.
  destruct (timerIntervalRef c) as [j|] eqn:Hj; simpl.
  - destruct (decide (j = i)) as [->|Hne].
    + apply lookup_delete_eq.
    + rewrite lookup_delete_ne by assumption.
      destruct (timers w !! i) eqn:Hi; [|reflexivity].
      apply H in Hi. congruence.
  - destruct (timers w !! i) eqn:Hi; [|reflexivity].
    apply H in Hi. discriminate.
Qed.

Lemma nextTimer_clearIntervalRef r w : nextTimer (clearIntervalRef r w) = nextTimer w.
Proof. now destruct r. Qed.

Lemma timerEffect_from_empty s D p c w :
  timers w = ∅ ->
  timerEffect s D p c w =
  if timerCondition s p
  then (set_timerIntervalRef (Some (nextTimer w)) (set_timeLeft D c),
        mkWindow {[ nextTimer w := p ]} (Pos.succ (nextTimer w)))
  else (c, w).
Proof.
  intros Hw. unfold timerEffect. destruct (timerCondition s p); [|reflexivity].
  unfold setInterval. rewrite nextTimer_clearIntervalRef.
  assert (Ht : timers (clearIntervalRef (timerIntervalRef (set_timeLeft D c)) w) = ∅).
  { apply cleanup_noTimer. intros i cl. rewrite Hw, lookup_empty. discriminate. }
  rewrite Ht. reflexivity.
Qed.

Lemma timerEffect_inv s D p c w :
  timers w = ∅ ->
  forall i closure,
    timers (snd (timerEffect s D p c w)) !! i = Some closure ->
    timerIntervalRef (fst (timerEffect s D p c w)) = Some i
    /\ (i < nextTimer (snd (timerEffect s D p c w)))%positive.
Proof.
  intros Hw i cl. rewrite timerEffect_from_empty by assumption.
  destruct (timerCondition s p); simpl.
  - intros H. apply lookup_singleton_Some in H as [<- _]. split; [reflexivity | lia].
  - rewrite Hw, lookup_empty. discriminate.
Qed.

Lemma handleSwipeStart_ref s p x c :
  timerIntervalRef (handleSwipeStart s p x c) = timerIntervalRef c.
Proof. unfold handleSwipeStart. now destruct (negb _). Qed.

Lemma handleSwipeMove_ref sr hr x c :
  timerIntervalRef (handleSwipeMove sr hr x c) = timerIntervalRef c.
Proof. unfold handleSwipeMove. destruct (negb _), sr, hr; reflexivity. Qed.

Lemma handleSwipeEnd_ref s p sr c :
  timerIntervalRef (fst (handleSwipeEnd s p sr c)) = timerIntervalRef c.
Proof.
  unfold handleSwipeEnd. destruct (negb _); [reflexivity|].
  destruct sr; [|reflexivity]. now destruct (overThreshold _ _).
Qed.

Lemma step_inv s D g m e : modalInv m -> modalInv (fst (step s D g m e)).
Proof.
  intros [Ht Hu]. destruct m as [b p c w]. simpl in Ht, Hu.
  assert (Hclean : timers (timerCleanup c w) = ∅).
  { apply cleanup_noTimer. intros i cl Hi. now apply Ht in Hi. }
  destruct e; cbn [step fst snd mounted props comp win].
  - (* Mount *)
    destruct b; [split; assumption|].
    destruct (timerEffect s D p0 (initialComponent D) w) as [c' w'] eqn:E.
    split; simpl; [|discriminate].
    intros i cl Hi.
    pose proof (timerEffect_inv s D p0 (initialComponent D) w (Hu eq_refl) i cl) as H.
    rewrite E in H. now apply H.
  - (* Render *)
    destruct b; [|split; assumption].
    destruct (timerDepsChanged s p p0).
    + destruct (timerEffect s D p0 c (timerCleanup c w)) as [c' w'] eqn:E.
      split; simpl; [|discriminate].
      intros i cl Hi.
      pose proof (timerEffect_inv s D p0 c (timerCleanup c w) Hclean i cl) as H.
      rewrite E in H. now apply H.
    + split; simpl; [assumption | discriminate].
  - (* Unmount *)
    destruct b; [|split; assumption].
    split; simpl.
    + intros i cl. rewrite Hclean, lookup_empty. discriminate.
    + intros _. exact Hclean.
  - (* IntervalFires *)
    destruct (timers w !! i) as [cl|] eqn:Hi; [|split; assumption].
    unfold intervalCallback. destruct (timeLeft c <=? 1); cbn [fst snd mounted comp win].
    + fold (timerCleanup c w). split; cbn [fst snd mounted comp win].
      * intros j cl'. rewrite Hclean, lookup_empty. discriminate.
      * intros _. exact Hclean.
    + split; simpl; [exact Ht|]. intros Hb. specialize (Hu Hb). unfold noTimer in Hu.
      simpl in Hu. rewrite Hu, lookup_empty in Hi. discriminate.
  - (* SwipeStart *)
    destruct (b && sliderRendered s p) eqn:E; [|split; assumption].
    split; simpl; [|discriminate]. intros i cl Hi. rewrite handleSwipeStart_ref. exact (Ht i cl Hi).
  - destruct b; [|split; assumption].
    split; simpl; [|discriminate]. intros i cl Hi. rewrite handleSwipeMove_ref. exact (Ht i cl Hi).
  - destruct b; [|split; assumption].
    pose proof (handleSwipeEnd_ref s p (refWidth s p (sliderWidth g)) c) as Hr.
    destruct (handleSwipeEnd s p (refWidth s p (sliderWidth g)) c) as [c' calls].
    split; simpl; [|discriminate]. intros i cl Hi. simpl in Hr. rewrite Hr. exact (Ht i cl Hi).
  - destruct (b && modalRendered s p); split; assumption.
  - destruct (b && modalRendered s p); split; assumption.
  - destruct (b && modalRendered s p && statusIs PREPARING p); split; assumption.
  - destruct (b && modalRendered s p && statusIs READY_FOR_PICKUP p); split; assumption.
Qed.

Lemma unmounted_inv D w : timers w = ∅ -> modalInv (unmountedModal D w).
Proof.
  intros Hw. split; simpl.
  - intros i cl. rewrite Hw, lookup_empty. discriminate.
  - intros _. exact Hw.
Qed.

Lemma run_inv s D g m es : modalInv m -> modalInv (fst (run s D g m es)).
Proof.
  revert m. induction es as [|e es IH]; intros m Hm; simpl; [assumption|].
  pose proof (step_inv s D g m e Hm) as H1.
  destruct (step s D g m e) as [m1 c1]. simpl in H1.
  specialize (IH m1 H1). destruct (run s D g m1 es) as [m2 c2]. exact IH.
Qed.

Lemma reachable_inv s D g m : reachable s D g m -> modalInv m.
Proof.
  intros [es <-]. apply run_inv, unmounted_inv. reflexivity.
Qed.

Lemma cancel_noTimer s D g m e :
  modalInv m -> isCancel s m e = true ->
  noTimer (fst (step s D g m e)) /\ snd (step s D g m e) = [].
Proof.
  intros [Ht Hu] Hc. destruct m as [b p c w]. simpl in Ht, Hu.
  assert (Hclean : timers (timerCleanup c w) = ∅).
  { apply cleanup_noTimer. intros i cl Hi. now apply Ht in Hi. }
  destruct e; try discriminate; simpl in Hc |- *.
  - apply andb_prop in Hc as [Hc Hcond]. apply andb_prop in Hc as [-> ->].
    rewrite timerEffect_from_empty by assumption.
    apply negb_true_iff in Hcond. rewrite Hcond. split; [exact Hclean | reflexivity].
  - rewrite Hc. split; [exact Hclean | reflexivity].
Qed.

Lemma onExpire_order s p o :
  order p = Some o -> onExpire s p = [UpdateStatus (order_id o) REJECTED].
Proof. intros H. unfold onExpire, handleCloseAndReject. rewrite H. now destruct s. Qed.

Lemma countdown_from s D g b p c w j closure o :
  timers w = {[ j := closure ]} -> timerIntervalRef c = Some j ->
  1 <= timeLeft c -> order closure = Some o ->
  (forall k : nat, Z.of_nat k < timeLeft c ->
     run s D g (mkModal b p c w) (ticks j k)
     = (mkModal b p (set_timeLeft (timeLeft c - Z.of_nat k) c) w, []))
  /\ run s D g (mkModal b p c w) (ticks j (Z.to_nat (timeLeft c)))
     = (mkModal b p (set_timeLeft 0 c) (mkWindow ∅ (nextTimer w)),
        [UpdateStatus (order_id o) REJECTED]).
Proof.
  intros Hw Hr HT Ho.
  assert (Hj : timers w !! j = Some closure) by (rewrite Hw; apply lookup_singleton_eq).
  assert (Hrun : forall k : nat, Z.of_nat k < timeLeft c ->
     run s D g (mkModal b p c w) (ticks j k)
     = (mkModal b p (set_timeLeft (timeLeft c - Z.of_nat k) c) w, [])).
  { intros k Hk. now apply run_ticks_running with (closure := closure). }
  split; [exact Hrun|].
  replace (Z.to_nat (timeLeft c)) with (Z.to_nat (timeLeft c - 1) + 1)%nat by lia.
  unfold ticks. rewrite repeat_app, run_app.
  fold (ticks j (Z.to_nat (timeLeft c - 1))). rewrite Hrun by lia.
  cbn [List.repeat run].
  erewrite step_tick_expire by (eauto; simpl; lia).
  rewrite (onExpire_order s closure o Ho). cbn [set_timeLeft timerIntervalRef].
  rewrite Hr. cbn [clearIntervalRef]. unfold clearInterval.
  rewrite Hw, delete_singleton_eq. reflexivity.
Qed.

Lemma onExpire_length s p : (length (onExpire s p) <= 1)%nat.
Proof. unfold onExpire, handleCloseAndReject. destruct s, (order p); simpl; lia. Qed.

(** However the intervals fire, a component issues at most one expiry. *)
Lemma ticks_at_most_one_expire s D g es :
  forallb isIntervalFires es = true ->
  forall m, modalInv m -> (length (snd (run s D g m es)) <= 1)%nat.
Proof.
  induction es as [|e es IH]; intros Hes m Hm; [simpl; lia|].
  simpl in Hes. apply andb_prop in Hes as [He Hes]. destruct e; try discriminate.
  cbn [run].
  pose proof (step_inv s D g m (IntervalFires i) Hm) as Hinv.
  destruct (timers (win m) !! i) as [cl|] eqn:Hi.
  - destruct m as [b p c w]. simpl in Hi.
    destruct (Z.le_gt_cases (timeLeft c) 1) as [Hle|Hgt].
    + rewrite (step_tick_expire s D g b p c w i cl Hi Hle) in Hinv |- *.
      rewrite run_ticks_noTimer; [| |assumption].
      * rewrite app_nil_r. apply onExpire_length.
      * apply cleanup_noTimer. intros j cl' Hj. destruct Hm as [Ht _]. now apply Ht in Hj.
    + rewrite (step_tick_running s D g b p c w i cl Hi ltac:(lia)) in Hinv |- *.
      cbn [fst] in Hinv. specialize (IH Hes _ Hinv).
      destruct (run s D g _ es). exact IH.
  - rewrite step_tick_dead in Hinv |- * by assumption.
    cbn [fst] in Hinv. specialize (IH Hes _ Hinv).
    destruct (run s D g m es). exact IH.
Qed.

Lemma clearIntervalRef_empty r w :
  timers w = ∅ -> timers (clearIntervalRef r w) = ∅.
Proof. intros H. destruct r; simpl; [rewrite H; apply delete_empty | exact H]. Qed.

Lemma step_keeps_noTimer s D g m e :
  noTimer m -> runsTimerEffect e = false -> noTimer (fst (step s D g m e)).
Proof.
  unfold noTimer. intros Hno He. destruct m as [b p c w]. cbn [win] in Hno.
  destruct e; try discriminate; cbn [step mounted props comp win].
  - destruct b; [|exact Hno]. now apply clearIntervalRef_empty.
  - rewrite Hno, lookup_empty. exact Hno.
  - destruct (b && sliderRendered s p); exact Hno.
  - destruct b; exact Hno.
  - destruct b; [|exact Hno]. destruct (handleSwipeEnd _ _ _ _). exact Hno.
  - destruct (b && modalRendered s p); exact Hno.
  - destruct (b && modalRendered s p); exact Hno.
  - destruct (b && modalRendered s p && statusIs PREPARING p); exact Hno.
  - destruct (b && modalRendered s p && statusIs READY_FOR_PICKUP p); exact Hno.
Qed.

Lemma run_keeps_noTimer s D g es :
  forallb (fun e => negb (runsTimerEffect e)) es = true ->
  forall m, noTimer m -> noTimer (fst (run s D g m es)).
Proof.
  induction es as [|e es IH]; intros Hes m Hm; cbn [run]; [exact Hm|].
  simpl in Hes. apply andb_prop in Hes as [He Hes]. apply negb_true_iff in He.
  pose proof (step_keeps_noTimer s D g m e Hm He) as H1.
  destruct (step s D g m e) as [m1 c1]. cbn [fst] in H1.
  specialize (IH Hes m1 H1). destruct (run s D g m1 es). exact IH.
Qed.

(** C8.  Once the timer effect's cleanup has run on a component (it unmounts,
    or a dependency changes and the effect's condition is false), the
    cancellation itself issues nothing, no interval of the component is left
    active, whatever interval firings follow neither change the component
    (no tick) nor issue a request (no expiry), and no interval becomes active
    again until the timer effect runs anew. *)
Theorem cancel_stops_all_callbacks (s : Surface) (D : Z) (g : Geometry) (m : Modal) (e : Event) :
  reachable s D g m ->
  isCancel s m e = true ->
  snd (step s D g m e) = []
  /\ noTimer (fst (step s D g m e))
  /\ (forall es, forallb isIntervalFires es = true ->
        run s D g (fst (step s D g m e)) es = (fst (step s D g m e), []))
  /\ (forall es, forallb (fun e' => negb (runsTimerEffect e')) es = true ->
        noTimer (fst (run s D g (fst (step s D g m e)) es))).
Proof.
  intros Hr Hc. apply reachable_inv in Hr.
  destruct (cancel_noTimer s D g m e Hr Hc) as [Hno Hcalls].
  split; [assumption|]. split; [assumption|]. split.
  - intros es Hes. now apply run_ticks_noTimer.
  - intros es Hes. now apply run_keeps_noTimer.
Qed.

Lemma render_reset s D g m p' :
  modalInv m -> mounted m = true ->
  timerDepsChanged s (props m) p' = true -> timerCondition s p' = true ->
  step s D g m (Render p')
  = (mkModal true p'
       (set_timerIntervalRef (Some (nextTimer (win m))) (set_timeLeft D (comp m)))
       (mkWindow {[ nextTimer (win m) := p' ]} (Pos.succ (nextTimer (win m)))), []).
Proof.
  intros [Ht _] Hb Hd Hc. destruct m as [b p c w]. simpl in *. subst b.
  rewrite Hd.
  assert (Hclean : timers (timerCleanup c w) = ∅).
  { apply cleanup_noTimer. intros i cl Hi. now apply Ht in Hi. }
  rewrite timerEffect_from_empty by assumption. rewrite Hc.
  unfold timerCleanup. rewrite nextTimer_clearIntervalRef. reflexivity.
Qed.

(** C7.  When the timer effect runs again on a mounted component (a dependency
    changed and the effect's condition holds), the remaining time is set back
    to the full duration [D], the only active interval is the newly created
    one (an interval that was running before is no longer active), the reset
    issues no request, and from then on the countdown behaves as a fresh one:
    nothing is issued during the first [D - 1] ticks, the single rejection is
    issued at tick [D], and no sequence of interval firings, of old or new
    identifiers, ever produces more than one expiry. *)
Theorem reset_supersedes_running_countdown
  (s : Surface) (D : Z) (g : Geometry) (m : Modal) (p' : Props) (o : Order) :
  reachable s D g m ->
  mounted m = true ->
  1 <= D ->
  timerDepsChanged s (props m) p' = true ->
  timerCondition s p' = true ->
  order p' = Some o ->
  let m' := fst (step s D g m (Render p')) in
  let j := nextTimer (win m) in
  snd (step s D g m (Render p')) = []
  /\ timeLeft (comp m') = D
  /\ timers (win m') = {[ j := p' ]}
  /\ (forall i closure, timers (win m) !! i = Some closure -> timers (win m') !! i = None)
  /\ (forall k : nat, Z.of_nat k < D -> snd (run s D g m' (ticks j k)) = [])
  /\ snd (run s D g m' (ticks j (Z.to_nat D))) = [UpdateStatus (order_id o) REJECTED]
  /\ (forall es, forallb isIntervalFires es = true ->
        (length (snd (run s D g m' es)) <= 1)%nat).
Proof.
  intros Hr Hb HD Hd Hc Ho m' j. apply reachable_inv in Hr.
  pose proof (step_inv s D g m (Render p') Hr) as Hinv'.
  subst m'. rewrite (render_reset s D g m p' Hr Hb Hd Hc) in *. cbn [fst snd] in *.
  fold j in Hinv' |- *.
  set (c' := set_timerIntervalRef (Some j) (set_timeLeft D (comp m))) in *.
  set (w' := mkWindow {[ j := p' ]} (Pos.succ j)) in *.
  destruct (countdown_from s D g true p' c' w' j p' o eq_refl eq_refl ltac:(simpl; lia) Ho)
    as [Hrun Hlast].
  repeat split.
  - intros i cl Hi. destruct Hr as [Ht _]. apply Ht in Hi as [_ Hlt]. fold j in Hlt.
    simpl. apply lookup_singleton_ne. lia.
  - intros k Hk. now rewrite Hrun.
  - change (timeLeft c') with D in Hlast. now rewrite Hlast.
  - intros es Hes. now apply ticks_at_most_one_expire.
Qed.

(** ** Mounting *)

Lemma mount_starts_timer s D g p n :
  timerCondition s p = true ->
  step s D g (unmountedModal D (mkWindow ∅ n)) (Mount p)
  = (mkModal true p (set_timerIntervalRef (Some n) (initialComponent D))
       (mkWindow {[ n := p ]} (Pos.succ n)), []).
Proof.
  intros Hc. simpl. unfold timerEffect. rewrite Hc. simpl.
  unfold setInterval. simpl. reflexivity.
Qed.

(** C1.  A countdown of [D >= 1] ticks that is started by mounting the surface
    on an order awaiting a decision, and then left to run, issues no request
    during its first [D - 1] ticks, issues the single request
    [UpdateStatus id REJECTED] at tick [D], and is no longer an active interval
    afterwards: however many more interval firings are fed in, nothing further
    is issued. *)
Theorem countdown_expires_once_at_D
  (s : Surface) (D : Z) (g : Geometry) (p : Props) (o : Order) (n : positive) :
  1 <= D ->
  timerCondition s p = true ->
  order p = Some o ->
  let m0 := fst (step s D g (unmountedModal D (mkWindow ∅ n)) (Mount p)) in
  (forall k : nat, Z.of_nat k < D ->
     snd (run s D g m0 (ticks n k)) = []
     /\ timeLeft (comp (fst (run s D g m0 (ticks n k)))) = D - Z.of_nat k
     /\ timers (win (fst (run s D g m0 (ticks n k)))) !! n = Some p)
  /\ snd (run s D g m0 (ticks n (Z.to_nat D))) = [UpdateStatus (order_id o) REJECTED]
  /\ noTimer (fst (run s D g m0 (ticks n (Z.to_nat D))))
  /\ (forall es, forallb isIntervalFires es = true ->
        snd (run s D g m0 (ticks n (Z.to_nat D) ++ es))
        = [UpdateStatus (order_id o) REJECTED]).
Proof.
  intros HD Hc Ho m0. subst m0. rewrite mount_starts_timer by assumption. cbn [fst].
  set (c0 := set_timerIntervalRef (Some n) (initialComponent D)).
  set (w0 := mkWindow {[ n := p ]} (Pos.succ n)).
  destruct (countdown_from s D g true p c0 w0 n p o eq_refl eq_refl ltac:(simpl; lia) Ho)
    as [Hrun Hlast].
  change (timeLeft c0) with D in Hrun, Hlast.
  split; [|split; [|split]].
  - intros k Hk. rewrite Hrun by assumption. cbn [fst snd comp win timeLeft set_timeLeft].
    repeat split. apply lookup_singleton_eq.
  - now rewrite Hlast.
  - now rewrite Hlast.
  - intros es Hes. rewrite run_app, Hlast.
    rewrite run_ticks_noTimer by (auto; reflexivity). reflexivity.
Qed.

Lemma handleSwipeMove_active w h x c :
  isSwiping c = true ->
  handleSwipeMove (Some w) (Some h) x c
  = set_handleTranslateX (clampOffset (x - swipeStartX c) (w - h))
      (set_swipeDeltaRef (clampOffset (x - swipeStartX c) (w - h)) c).
Proof. intros H. unfold handleSwipeMove. now rewrite H. Qed.

Lemma handleSwipeMove_inactive sr hr x c :
  isSwiping c = false -> handleSwipeMove sr hr x c = c.
Proof. intros H. unfold handleSwipeMove. now rewrite H. Qed.

Lemma clampOffset_range d mx : 0 <= mx -> 0 <= clampOffset d mx <= mx.
Proof. unfold clampOffset. lia. Qed.

(** C6.  With the handle no wider than the track, every offset
    [handleSwipeMove] reports while a gesture is active is
    [max(0, min(pointerX - startX, maxOffset))] and so lies in
    [[0, maxOffset]], [maxOffset = trackWidth - handleWidth], for one move and
    for every move of a sequence; the stored offset is the reported one; and
    with no gesture active the handler changes nothing. *)
Theorem move_clamps_offset (c : Component) (w h : Z) :
  h <= w ->
  (forall x, isSwiping c = true ->
     let c' := handleSwipeMove (Some w) (Some h) x c in
     handleTranslateX c' = clampOffset (x - swipeStartX c) (w - h)
     /\ swipeDeltaRef c' = handleTranslateX c'
     /\ 0 <= handleTranslateX c' <= w - h)
  /\ (forall xs, isSwiping c = true ->
        Forall (fun d => 0 <= d <= w - h) (snd (swipeMoves (Some w) (Some h) c xs)))
  /\ (forall sliderRef handleRef x, isSwiping c = false ->
        handleSwipeMove sliderRef handleRef x c = c).
Proof.
  intros Hhw. split; [|split].
  - intros x Ha c'. subst c'. rewrite handleSwipeMove_active by assumption. simpl.
    repeat split; apply clampOffset_range; lia.
  - intros xs. revert c. induction xs as [|x xs IH]; intros c Ha; simpl.
    + constructor.
    + specialize (IH (handleSwipeMove (Some w) (Some h) x c)).
      destruct (swipeMoves (Some w) (Some h) _ xs) as [c2 ds]. simpl.
      rewrite handleSwipeMove_active in IH |- * by assumption.
      constructor; [simpl; apply clampOffset_range; lia | now apply IH].
  - intros sr hr x Hi. now apply handleSwipeMove_inactive.
Qed.

(** ** Release *)

Lemma sliderRendered_guard s p :
  sliderRendered s p = true -> swipeStartGuard s p = true.
Proof.
  unfold sliderRendered, swipeStartGuard, modalRendered.
  destruct s; intros H; apply andb_prop in H as [_ H]; exact H.
Qed.

Lemma step_SwipeEnd_active s D g p c w o :
  sliderRendered s p = true -> order p = Some o -> isSwiping c = true ->
  step s D g (mkModal true p c w) SwipeEnd
  = if overThreshold (swipeDeltaRef c) (sliderWidth g)
    then (mkModal true p (set_isSwiping false c) w, [UpdateStatus (order_id o) PREPARING])
    else (mkModal true p (set_handleTranslateX 0 (set_isSwiping false c)) w, []).
Proof.
  intros Hs Ho Ha. cbn [step mounted props comp win]. unfold handleSwipeEnd, swipeEndGuard, refWidth.
  rewrite Hs, Ha. unfold hasOrder. rewrite Ho.
  assert (Hg : (match s with NewOrderModal => true && true | OrderDetailsModal => true end) = true)
    by now destruct s.
  rewrite Hg. cbn [negb set_isSwiping swipeDeltaRef].
  now destruct (overThreshold (swipeDeltaRef c) (sliderWidth g)).
Qed.

Lemma step_SwipeStart_rendered s D g p c w x :
  sliderRendered s p = true ->
  step s D g (mkModal true p c w) (SwipeStart x)
  = (mkModal true p (set_isSwiping true (set_swipeStartX x c)) w, []).
Proof.
  intros Hs. cbn [step mounted props comp win]. rewrite Hs. unfold handleSwipeStart.
  now rewrite (sliderRendered_guard s p Hs).
Qed.

Lemma step_SwipeMove_active s D g p c w x :
  sliderRendered s p = true -> isSwiping c = true ->
  step s D g (mkModal true p c w) (SwipeMove x)
  = (mkModal true p
       (set_handleTranslateX (clampOffset (x - swipeStartX c) (sliderWidth g - handleWidth g))
          (set_swipeDeltaRef (clampOffset (x - swipeStartX c) (sliderWidth g - handleWidth g)) c))
       w, []).
Proof.
  intros Hs Ha. cbn [step mounted props comp win]. unfold refWidth. rewrite Hs.
  now rewrite handleSwipeMove_active.
Qed.



(** ** The stored offset across events *)

Lemma timerEffect_delta s D p c w :
  swipeDeltaRef (fst (timerEffect s D p c w)) = swipeDeltaRef c.
Proof. unfold timerEffect. now destruct (timerCondition s p). Qed.

Lemma handleSwipeEnd_delta s p sr c :
  swipeDeltaRef (fst (handleSwipeEnd s p sr c)) = swipeDeltaRef c.
Proof.
  unfold handleSwipeEnd. destruct (negb _); [reflexivity|].
  destruct sr; [|reflexivity]. now destruct (overThreshold _ _).
Qed.

Lemma handleSwipeStart_delta s p x c :
  swipeDeltaRef (handleSwipeStart s p x c) = swipeDeltaRef c.
Proof. unfold handleSwipeStart. now destruct (negb _). Qed.

Lemma step_offsetInRange s D g m e :
  offsetInRange g (comp m) -> offsetInRange g (comp (fst (step s D g m e))).
Proof.
  unfold offsetInRange. intros H. destruct m as [b p c w]. cbn [comp] in H.
  destruct e; cbn [step mounted props comp win].
  - destruct b; [exact H|].
    pose proof (timerEffect_delta s D p0 (initialComponent D) w) as E.
    destruct (timerEffect s D p0 (initialComponent D) w). simpl in *. rewrite E. lia.
  - destruct b; [|exact H]. destruct (timerDepsChanged s p p0); [|exact H].
    pose proof (timerEffect_delta s D p0 c (timerCleanup c w)) as E.
    destruct (timerEffect s D p0 c (timerCleanup c w)). simpl in *. now rewrite E.
  - destruct b; exact H.
  - destruct (timers w !! i); [|exact H].
    unfold intervalCallback. destruct (timeLeft c <=? 1); exact H.
  - destruct (b && sliderRendered s p); [|exact H].
    cbn [fst comp]. now rewrite handleSwipeStart_delta.
  - destruct b; [|exact H]. cbn [fst comp].
    unfold handleSwipeMove, refWidth.
    destruct (negb (isSwiping c)); [exact H|].
    destruct (sliderRendered s p); [|exact H]. simpl. lia.
  - destruct b; [|exact H].
    pose proof (handleSwipeEnd_delta s p (refWidth s p (sliderWidth g)) c) as E.
    destruct (handleSwipeEnd s p (refWidth s p (sliderWidth g)) c). simpl in *. now rewrite E.
  - destruct (b && modalRendered s p); exact H.
  - destruct (b && modalRendered s p); exact H.
  - destruct (b && modalRendered s p && statusIs PREPARING p); exact H.
  - destruct (b && modalRendered s p && statusIs READY_FOR_PICKUP p); exact H.
Qed.

Lemma orderCall_no_accept p t : t <> PREPARING -> Forall (fun c => isAccept c = false) (orderCall p t).
Proof.
  intros Ht. unfold orderCall. destruct (order p); [|constructor].
  constructor; [|constructor]. now destruct t.
Qed.

Lemma step_no_accept s D g m e :
  overThreshold (swipeDeltaRef (comp m)) (sliderWidth g) = false ->
  Forall (fun c => isAccept c = false) (snd (step s D g m e)).
Proof.
  intros Hov. destruct m as [b p c w]. cbn [comp] in Hov.
  destruct e; cbn [step mounted props comp win].
  - destruct b; [constructor|]. destruct (timerEffect _ _ _ _ _); constructor.
  - destruct b; [|constructor]. destruct (timerDepsChanged s p p0); [|constructor].
    destruct (timerEffect _ _ _ _ _); constructor.
  - destruct b; constructor.
  - destruct (timers w !! i) as [cl|]; [|constructor].
    unfold intervalCallback. destruct (timeLeft c <=? 1); [|constructor]. simpl.
    unfold onExpire, handleCloseAndReject. destruct s, (order cl); repeat constructor.
  - destruct (b && sliderRendered s p); constructor.
  - destruct b; constructor.
  - destruct b; [|constructor].
    unfold handleSwipeEnd, refWidth. destruct (negb _); [constructor|].
    destruct (sliderRendered s p); [|constructor].
    cbn [set_isSwiping swipeDeltaRef]. rewrite Hov. constructor.
  - destruct (b && modalRendered s p); [|constructor].
    destruct s; [|repeat constructor]. apply (orderCall_no_accept p REJECTED). discriminate.
  - destruct (b && modalRendered s p); [|constructor]. destruct s; repeat constructor.
  - destruct (b && modalRendered s p && statusIs PREPARING p); [|constructor].
    destruct s; [constructor|]. apply orderCall_no_accept. discriminate.
  - destruct (b && modalRendered s p && statusIs READY_FOR_PICKUP p); [|constructor].
    destruct s; [constructor|]. apply orderCall_no_accept. discriminate.
Qed.

Lemma run_no_accept s D g es :
  (forall c, offsetInRange g c -> overThreshold (swipeDeltaRef c) (sliderWidth g) = false) ->
  forall m, offsetInRange g (comp m) ->
  Forall (fun c => isAccept c = false) (snd (run s D g m es)).
Proof.
  intros Hov. induction es as [|e es IH]; intros m Hm; cbn [run]; [constructor|].
  pose proof (step_no_accept s D g m e (Hov _ Hm)) as H1.
  pose proof (step_offsetInRange s D g m e Hm) as H2.
  destruct (step s D g m e) as [m1 c1]. cbn [fst snd] in *.
  specialize (IH m1 H2). destruct (run s D g m1 es) as [m2 c2]. cbn [snd] in *.
  apply Forall_app. split; assumption.
Qed.

(** C9, as amended.  For a track narrower than [2^31] pixels whose handle is
    strictly wider than three tenths of it, no run of events from the
    unmounted component ever issues the accept request:
    the stored offset never exceeds [trackWidth - handleWidth], which lies
    below the computed threshold. *)
Theorem wide_handle_never_commits (s : Surface) (D : Z) (g : Geometry) (es : list Event) :
  0 <= sliderWidth g < 2 ^ 31 ->
  3 * sliderWidth g < 10 * handleWidth g ->
  Forall (fun c => isAccept c = false)
    (snd (run s D g (unmountedModal D freshWindow) es)).
Proof.
  intros Hw Hh. apply run_no_accept.
  - intros c [Hlo Hhi]. apply not_overThreshold; [assumption|].
    unfold scale, M07. lia.
  - unfold offsetInRange. simpl. lia.
Qed.

Lemma step_Mount_unmounted s D g p w0 :
  step s D g (unmountedModal D w0) (Mount p)
  = (mkModal true p (fst (timerEffect s D p (initialComponent D) w0))
       (snd (timerEffect s D p (initialComponent D) w0)), []).
Proof. simpl. now destruct (timerEffect s D p (initialComponent D) w0). Qed.

(** C10.  [handleSwipeStart] leaves the stored offset as it is, so a begin
    directly followed by a release on a displayed decision surface is judged
    on the offset stored before the begin: the accept request is issued
    exactly when that earlier offset is over the threshold.  On a component
    that has just been mounted the stored offset is 0 and such a tap requests
    nothing. *)
Theorem begin_keeps_stored_offset
  (s : Surface) (D : Z) (g : Geometry) (p : Props) (c : Component) (w : Window)
  (o : Order) (x : Z) :
  sliderRendered s p = true ->
  order p = Some o ->
  swipeDeltaRef (comp (fst (step s D g (mkModal true p c w) (SwipeStart x)))) = swipeDeltaRef c
  /\ snd (run s D g (mkModal true p c w) [SwipeStart x; SwipeEnd])
     = (if overThreshold (swipeDeltaRef c) (sliderWidth g)
        then [UpdateStatus (order_id o) PREPARING] else [])
  /\ (0 <= sliderWidth g < 2 ^ 31 ->
      forall w0,
        snd (run s D g (unmountedModal D w0) [Mount p; SwipeStart x; SwipeEnd]) = []).
Proof.
  intros Hs Ho. split; [|split].
  - rewrite step_SwipeStart_rendered by assumption. reflexivity.
  - cbn [run]. rewrite step_SwipeStart_rendered by assumption.
    erewrite step_SwipeEnd_active by (eauto; reflexivity).
    cbn [swipeDeltaRef set_isSwiping set_swipeStartX].
    now destruct (overThreshold _ _).
  - intros Hw w0. cbn [run]. rewrite step_Mount_unmounted.
    pose proof (timerEffect_delta s D p (initialComponent D) w0) as E.
    rewrite step_SwipeStart_rendered by assumption.
    erewrite step_SwipeEnd_active by (eauto; reflexivity).
    cbn [swipeDeltaRef set_isSwiping set_swipeStartX]. rewrite E. simpl swipeDeltaRef.
    rewrite not_overThreshold_nonpos by (auto; lia). reflexivity.
Qed.

(** ** Steps of the component *)


Lemma step_user_mounted_props s D g m e :
  userEvent e = true ->
  mounted (fst (step s D g m e)) = mounted m /\ props (fst (step s D g m e)) = props m.
Proof.
  intros Hu. destruct m as [b p c w].
  destruct e; try discriminate; cbn [step mounted props comp win].
  - destruct (timers w !! i) as [cl|]; [|auto].
    destruct (intervalCallback s cl c w) as [[c' w'] calls]. auto.
  - destruct (b && sliderRendered s p) eqn:E; [|auto].
    apply andb_prop in E as [-> _]. auto.
  - destruct b; auto.
  - destruct b; [|auto]. destruct (handleSwipeEnd _ _ _ _); auto.
  - destruct (b && modalRendered s p); auto.
  - destruct (b && modalRendered s p); auto.
  - destruct (b && modalRendered s p && statusIs PREPARING p); auto.
  - destruct (b && modalRendered s p && statusIs READY_FOR_PICKUP p); auto.
Qed.

Lemma step_unmounted_silent s D g m e :
  mounted m = false -> noTimer m -> userEvent e = true -> step s D g m e = (m, []).
Proof.
  intros Hb Hno Hu. destruct m as [b p c w]. simpl in Hb. subst b.
  unfold noTimer in Hno. simpl in Hno.
  destruct e; try discriminate; cbn [step mounted props comp win andb]; try reflexivity.
  rewrite Hno, lookup_empty. reflexivity.
Qed.


(** ** The screen *)

Lemma ownerCalls_closed calls : ownerCalls calls None = (forwarded calls, None).
Proof.
  induction calls as [|c cs IH]; [reflexivity|].
  cbn [ownerCalls]. destruct c; cbn [handleUpdateStatus onClose]; rewrite IH; reflexivity.
Qed.

Lemma ownerCalls_cons c cs sel : ownerCalls (c :: cs) sel = (forwarded (c :: cs), None).
Proof.
  cbn [ownerCalls]. destruct c; cbn [handleUpdateStatus onClose];
    rewrite ownerCalls_closed; reflexivity.
Qed.

Lemma renderScreen_inv g sel n m :
  modalInv m ->
  (mounted m = true -> isOpen (props m) = true) ->
  let m' := renderScreen g sel n m in
  modalInv m'
  /\ (sel = None -> mounted m' = false)
  /\ (mounted m' = true -> isOpen (props m') = true).
Proof.
  intros Hm Ho. unfold renderScreen. destruct sel as [o|].
  - destruct (mounted m) eqn:Hb.
    + split; [apply step_inv; assumption|]. split; [discriminate|].
      destruct m as [b p c w]. simpl in Hb. subst b. cbn [step mounted props comp win].
      destruct (timerDepsChanged _ _ _); [destruct (timerEffect _ _ _ _ _)|]; reflexivity.
    + split; [apply step_inv; assumption|]. split; [discriminate|].
      destruct m as [b p c w]. simpl in Hb. subst b. cbn [step mounted props comp win].
      destruct (timerEffect _ _ _ _ _); reflexivity.
  - split; [apply step_inv; assumption|].
    destruct m as [b p c w]. cbn [step mounted props comp win].
    destruct b; simpl; split; auto; discriminate.
Qed.

Lemma screenStep_inv g s e : screenInv s -> screenInv (fst (screenStep g s e)).
Proof.
  intros (Hm & Hsel & Hopen). destruct e; cbn [screenStep fst].
  - destruct (renderScreen_inv g (Some o) (S (renderCount s)) (detail s) Hm Hopen)
      as (H1 & H2 & H3).
    split; [exact H1|]. split; [discriminate | exact H3].
  - destruct (renderScreen_inv g (selectedOrder s) (S (renderCount s)) (detail s) Hm Hopen)
      as (H1 & H2 & H3).
    split; [exact H1|]. split; assumption.
  - destruct (userEvent e) eqn:Hu; [|split; [|split]; assumption].
    pose proof (step_inv OrderDetailsModal 150 g (detail s) e Hm) as Hi.
    destruct (step_user_mounted_props OrderDetailsModal 150 g (detail s) e Hu) as [Hb Hp].
    destruct (step OrderDetailsModal 150 g (detail s) e) as [m calls]. cbn [fst] in *.
    destruct calls as [|c cs]; [|rewrite ownerCalls_cons]; cbn [fst].
    + split; [exact Hi|]. cbn [selectedOrder detail].
      rewrite Hb, Hp. split; assumption.
    + assert (Ho' : mounted m = true -> isOpen (props m) = true) by (rewrite Hb, Hp; exact Hopen).
      destruct (renderScreen_inv g None (S (renderCount s)) m Hi Ho') as (H1 & H2 & H3).
      split; [exact H1|]. split; [intros _; now apply H2 | exact H3].
Qed.

Lemma screenRun_inv g es : forall s, screenInv s -> screenInv (fst (screenRun g s es)).
Proof.
  induction es as [|e es IH]; intros s Hs; cbn [screenRun]; [exact Hs|].
  pose proof (screenStep_inv g s e Hs) as H1.
  destruct (screenStep g s e) as [s1 c1]. cbn [fst] in H1.
  specialize (IH s1 H1). destruct (screenRun g s1 es). exact IH.
Qed.

Lemma initialScreen_inv : screenInv initialScreen.
Proof.
  split; [apply unmounted_inv; reflexivity|]. split; [reflexivity | discriminate].
Qed.

Lemma screenReachable_inv g s : screenReachable g s -> screenInv s.
Proof. intros [es <-]. apply screenRun_inv, initialScreen_inv. Qed.







Lemma timerEffect_gesture s D p c w :
  isSwiping (fst (timerEffect s D p c w)) = isSwiping c.
Proof. unfold timerEffect. now destruct (timerCondition s p). Qed.

(** C5, as amended.  The cleanup of the timer effect (the component unmounts,
    or a dependency changes and the effect's condition is false) cancels the
    interval and issues no request, and no interval firing issues one
    afterwards.  A component mounted again after an unmount starts with no
    gesture and offset 0.  Dismissing the details view, by its backdrop or its
    close button, calls [onClose] only and changes nothing in the component;
    under [OrdersScreen] nothing reaches the owner and the view is unmounted
    with no active interval.  A click on the backdrop of [NewOrderModal] is a
    rejection: [handleCloseAndReject] requests [REJECTED] for the order. *)
Theorem dismissal_effects (s : Surface) (D : Z) (g : Geometry) (m : Modal) :
  reachable s D g m ->
  (forall e, isCancel s m e = true ->
     snd (step s D g m e) = []
     /\ noTimer (fst (step s D g m e))
     /\ forall es, forallb isIntervalFires es = true ->
          snd (run s D g (fst (step s D g m e)) es) = [])
  /\ (forall p,
        let m' := fst (step s D g (fst (step s D g m Unmount)) (Mount p)) in
        isSwiping (comp m') = false /\ swipeDeltaRef (comp m') = 0)
  /\ (forall e, isDismiss e = true -> s = OrderDetailsModal ->
        fst (step s D g m e) = m
        /\ Forall (fun c => c = OnClose) (snd (step s D g m e)))
  /\ (forall scr e, screenReachable g scr -> isDismiss e = true ->
        snd (screenStep g scr (ModalEvent e)) = []
        /\ (mounted (detail scr) = true ->
            selectedOrder (fst (screenStep g scr (ModalEvent e))) = None
            /\ mounted (detail (fst (screenStep g scr (ModalEvent e)))) = false
            /\ noTimer (detail (fst (screenStep g scr (ModalEvent e))))))
  /\ (forall o, s = NewOrderModal -> mounted m = true -> isOpen (props m) = true ->
        order (props m) = Some o ->
        step s D g m BackdropClick = (m, [UpdateStatus (order_id o) REJECTED])).
Proof.
  intros Hr. apply reachable_inv in Hr. split; [|split; [|split; [|split]]].
  - intros e Hc. destruct (cancel_noTimer s D g m e Hr Hc) as [Hno Hcalls].
    split; [assumption|]. split; [assumption|].
    intros es Hes. now rewrite run_ticks_noTimer.
  - intros p m'. subst m'.
    assert (Hu : mounted (fst (step s D g m Unmount)) = false).
    { destruct m as [[] p0 c w]; reflexivity. }
    destruct (step s D g m Unmount) as [[b p0 c w] calls]. cbn [fst mounted] in Hu. subst b.
    cbn [step mounted win fst].
    pose proof (timerEffect_gesture s D p (initialComponent D) w) as E1.
    pose proof (timerEffect_delta s D p (initialComponent D) w) as E2.
    destruct (timerEffect s D p (initialComponent D) w) as [c' w']. cbn [fst comp] in *.
    now rewrite E1, E2.
  - intros e He ->. destruct m as [b p c w].
    destruct e; try discriminate; cbn [step mounted props];
      destruct (b && modalRendered OrderDetailsModal p); cbn [fst snd];
      (split; [reflexivity | repeat constructor]).
  - intros scr e Hsr He. apply screenReachable_inv in Hsr.
    destruct Hsr as (Hm & Hsel & Hopen).
    assert (Hstep : step OrderDetailsModal 150 g (detail scr) e
                    = (detail scr, if mounted (detail scr) && isOpen (props (detail scr))
                                   then [OnClose] else [])).
    { destruct (detail scr) as [b p c w].
      destruct e; try discriminate; cbn [step mounted props modalRendered];
        now destruct (b && isOpen p). }
    cbn [screenStep]. replace (userEvent e) with true by now destruct e.
    rewrite Hstep. destruct (mounted (detail scr)) eqn:Hb.
    + rewrite (Hopen eq_refl). cbn [andb]. rewrite ownerCalls_cons.
      cbn [fst snd selectedOrder detail forwarded List.filter].
      split; [reflexivity|]. intros _. split; [reflexivity|].
      unfold renderScreen.
      destruct (cancel_noTimer OrderDetailsModal 150 g (detail scr) Unmount Hm Hb) as [Hno _].
      split; [|exact Hno].
      destruct (detail scr) as [b p c w]. simpl in Hb. subst b. reflexivity.
    + cbn [andb fst snd]. split; [reflexivity | discriminate].
  - intros o -> Hb Hopen Ho. destruct m as [b p c w]. simpl in Hb, Hopen, Ho. subst b.
    cbn [step mounted props modalRendered]. unfold hasOrder, handleCloseAndReject.
    now rewrite Hopen, Ho.
Qed.

(** ** The status machine *)

Lemma legalEdge_table current target :
  legalEdge current target = true <-> In (current, target) legalEdges.
Proof.
  unfold legalEdges. split.
  - destruct current, target; simpl; intros H; try discriminate; tauto.
  - simpl. intros [H|[H|[H|[H|[]]]]]; inversion H; reflexivity.
Qed.

(** C3.  Against the store as the specification describes it: a request
    whose (current status, target) pair is not one of the four legal edges
    returns the invalid-transition error and leaves the store, hence the
    order's status, as it was; a request along a legal edge succeeds with the
    target, the order's status becomes the target and no other order is
    touched. *)
Theorem transition_accepts_exactly_legal_edges
  (store : gmap string OrderStatus) (orderId : string) (current target : OrderStatus) :
  store !! orderId = Some current ->
  (~ In (current, target) legalEdges ->
     transition current target = InvalidTransitionError
     /\ requestStatusTransition store orderId target = (store, InvalidTransitionError))
  /\ (In (current, target) legalEdges ->
        transition current target = Success target
        /\ snd (requestStatusTransition store orderId target) = Success target
        /\ fst (requestStatusTransition store orderId target) !! orderId = Some target
        /\ forall other, other <> orderId ->
             fst (requestStatusTransition store orderId target) !! other = store !! other).
Proof.
  intros Hs. unfold requestStatusTransition, transition. rewrite Hs. split.
  - intros Hn. destruct (legalEdge current target) eqn:E.
    + apply legalEdge_table in E. contradiction.
    + split; reflexivity.
  - intros Hin. apply legalEdge_table in Hin. rewrite Hin. cbn [fst snd].
    split; [reflexivity|]. split; [reflexivity|].
    split; [apply lookup_insert_eq|].
    intros other Hne. now apply lookup_insert_ne.
Qed.

(** What the sources themselves show of the status machine: the buttons of
    [ActionButtons] are rendered per status, so a manual advance is only ever
    requested along a legal edge, and [handleUpdateStatus] forwards every
    request unchanged. *)
Lemma manual_advance_requests_legal_edge D g m e orderId target :
  e = ReadyForPickupClick \/ e = MarkCompletedClick ->
  In (UpdateStatus orderId target) (snd (step OrderDetailsModal D g m e)) ->
  exists o, order (props m) = Some o /\ order_id o = orderId
            /\ legalEdge (status o) target = true.
Proof.
  intros He Hin. destruct m as [b p c w].
  destruct He as [-> | ->]; cbn [step mounted props] in Hin.
  - destruct (b && modalRendered OrderDetailsModal p && statusIs PREPARING p) eqn:E;
      [|contradiction].
    apply andb_prop in E as [_ E]. unfold statusIs in E. unfold orderCall in Hin.
    cbn [snd] in Hin. destruct (order p) as [o|] eqn:Ho; [|discriminate].
    destruct Hin as [Hin | []]. inversion Hin; subst.
    exists o. apply bool_decide_eq_true in E. rewrite E. cbn [props]. auto.
  - destruct (b && modalRendered OrderDetailsModal p && statusIs READY_FOR_PICKUP p) eqn:E;
      [|contradiction].
    apply andb_prop in E as [_ E]. unfold statusIs in E. unfold orderCall in Hin.
    cbn [snd] in Hin. destruct (order p) as [o|] eqn:Ho; [|discriminate].
    destruct Hin as [Hin | []]. inversion Hin; subst.
    exists o. apply bool_decide_eq_true in E. rewrite E. cbn [props]. auto.
Qed.

Lemma handleUpdateStatus_forwards orderId target sel :
  ownerCalls [UpdateStatus orderId target] sel = ([UpdateStatus orderId target], None).
Proof. reflexivity. Qed.

(** ** The scenarios of the specification, run on the model *)

(** Scenario A: no input for the whole window, on either surface. *)
Example scenario_A (s : Surface) :
  snd (run s (surfaceDuration s) wideTrack (unmountedModal (surfaceDuration s) freshWindow)
         (Mount props1 :: ticks 1 (Z.to_nat (surfaceDuration s - 1)))) = []
  /\ snd (run s (surfaceDuration s) wideTrack (unmountedModal (surfaceDuration s) freshWindow)
            (Mount props1 :: ticks 1 (Z.to_nat (surfaceDuration s))))
     = [UpdateStatus "ORD-1" REJECTED]
  /\ snd (run s (surfaceDuration s) wideTrack (unmountedModal (surfaceDuration s) freshWindow)
            (Mount props1 :: ticks 1 1000))
     = [UpdateStatus "ORD-1" REJECTED].
Proof. destruct s; vm_compute; repeat split. Qed.

(** Scenario C: a drag to half of the track, released. *)
Example scenario_C :
  let '(m, calls) :=
    run NewOrderModal 600 scenarioTrack (unmountedModal 600 freshWindow)
      (Mount props1 :: ticks 1 30 ++ [SwipeStart 10; SwipeMove 80; SwipeEnd]) in
  calls = [] /\ handleTranslateX (comp m) = 0 /\ timeLeft (comp m) = 570
  /\ timers (win m) !! 1%positive = Some props1.
Proof. vm_compute. repeat split. Qed.


(** C5, counterexample.  Dismissing [NewOrderModal] by a click on its backdrop
    issues the reject request. *)
Lemma backdrop_dismissal_rejects :
  snd (run NewOrderModal 600 wideTrack (unmountedModal 600 freshWindow)
         [Mount props1; BackdropClick])
  = [UpdateStatus "ORD-1" REJECTED].
Proof. vm_compute. reflexivity. Qed.

(** C9, counterexample.  A 340 px track with a 102 px handle: the handle is
    three tenths of the track, the full drag stores the offset 238, and the
    binary64 product [340 * 0.7] is below 238, so the release commits. *)
Lemma boundary_handle_commits :
  3 * sliderWidth boundaryTrack <= 10 * handleWidth boundaryTrack
  /\ snd (run NewOrderModal 600 boundaryTrack (unmountedModal 600 freshWindow)
            [Mount props1; SwipeStart 0; SwipeMove 238; SwipeEnd])
     = [UpdateStatus "ORD-1" PREPARING]
  /\ PrimFloat.ltb (PrimFloat.mul 340%float 0x1.6666666666666p-1%float) 238%float = true.
Proof. vm_compute. repeat split. discriminate. Qed.

(** A tap after an earlier gesture accepts the next order: the offset of the
    drag on the first order is still stored when the second order is shown. *)
Example tap_commits_on_stored_offset :
  snd (run NewOrderModal 600 wideTrack (unmountedModal 600 freshWindow)
         [Mount props1; SwipeStart 0; SwipeMove 300; SwipeEnd;
          Render closedProps; Render props2; SwipeStart 7; SwipeEnd])
  = [UpdateStatus "ORD-1" PREPARING; UpdateStatus "ORD-2" PREPARING].
Proof. vm_compute. reflexivity. Qed.

(** ** The theorems at concrete inputs *)

Lemma countdown_expires_once_at_D_witness :
  1 <= 600
  /\ timerCondition NewOrderModal props1 = true
  /\ order props1 = Some order1
  /\ snd (run NewOrderModal 600 wideTrack
            (fst (step NewOrderModal 600 wideTrack
                    (unmountedModal 600 (mkWindow ∅ 1%positive)) (Mount props1)))
            (ticks 1 (Z.to_nat 600)))
     = [UpdateStatus "ORD-1" REJECTED].
Proof.
  split; [lia|]. split; [reflexivity|]. split; [reflexivity|].
  exact (proj1 (proj2 (countdown_expires_once_at_D NewOrderModal 600 wideTrack props1 order1
                         1%positive ltac:(lia) eq_refl eq_refl))).
Defined.


Lemma transition_accepts_exactly_legal_edges_witness :
  ({[ "ORD-1" := PREPARING ]} : gmap string OrderStatus) !! "ORD-1" = Some PREPARING
  /\ snd (requestStatusTransition {[ "ORD-1" := PREPARING ]} "ORD-1" READY_FOR_PICKUP)
     = Success READY_FOR_PICKUP.
Proof.
  assert (H : ({[ "ORD-1" := PREPARING ]} : gmap string OrderStatus) !! "ORD-1"
              = Some PREPARING) by (vm_compute; reflexivity).
  split; [exact H|].
  apply (proj2 (transition_accepts_exactly_legal_edges _ "ORD-1" PREPARING READY_FOR_PICKUP H)).
  simpl. tauto.
Defined.


Lemma dismissal_effects_witness :
  reachable NewOrderModal 600 wideTrack runningModal
  /\ snd (step NewOrderModal 600 wideTrack runningModal Unmount) = [].
Proof.
  assert (H : reachable NewOrderModal 600 wideTrack runningModal)
    by (exists (Mount props1 :: ticks 1 30); reflexivity).
  split; [exact H|].
  apply (proj1 (dismissal_effects NewOrderModal 600 wideTrack runningModal H) Unmount).
  vm_compute. reflexivity.
Defined.

Lemma move_clamps_offset_witness :
  56 <= 336
  /\ Forall (fun d => 0 <= d <= 336 - 56)
       (snd (swipeMoves (Some 336) (Some 56) (set_isSwiping true (initialComponent 600))
               [-5; 100; 400])).
Proof.
  split; [lia|].
  apply (proj1 (proj2 (move_clamps_offset (set_isSwiping true (initialComponent 600)) 336 56
                         ltac:(lia)))).
  reflexivity.
Defined.

Lemma reset_supersedes_running_countdown_witness :
  reachable NewOrderModal 600 wideTrack runningModal
  /\ mounted runningModal = true
  /\ 1 <= 600
  /\ timerDepsChanged NewOrderModal (props runningModal) props2 = true
  /\ timerCondition NewOrderModal props2 = true
  /\ order props2 = Some order2
  /\ timeLeft (comp (fst (step NewOrderModal 600 wideTrack runningModal (Render props2)))) = 600.
Proof.
  assert (H : reachable NewOrderModal 600 wideTrack runningModal)
    by (exists (Mount props1 :: ticks 1 30); reflexivity).
  assert (Hm : mounted runningModal = true) by (vm_compute; reflexivity).
  assert (Hd : timerDepsChanged NewOrderModal (props runningModal) props2 = true)
    by (vm_compute; reflexivity).
  split; [exact H|]. split; [exact Hm|]. split; [lia|]. split; [exact Hd|].
  split; [reflexivity|]. split; [reflexivity|].
  exact (proj1 (proj2 (reset_supersedes_running_countdown NewOrderModal 600 wideTrack
                         runningModal props2 order2 H Hm ltac:(lia) Hd eq_refl eq_refl))).
Defined.

Lemma cancel_stops_all_callbacks_witness :
  reachable NewOrderModal 600 wideTrack runningModal
  /\ isCancel NewOrderModal runningModal Unmount = true
  /\ noTimer (fst (step NewOrderModal 600 wideTrack runningModal Unmount)).
Proof.
  assert (H : reachable NewOrderModal 600 wideTrack runningModal)
    by (exists (Mount props1 :: ticks 1 30); reflexivity).
  assert (Hc : isCancel NewOrderModal runningModal Unmount = true) by (vm_compute; reflexivity).
  split; [exact H|]. split; [exact Hc|].
  exact (proj1 (proj2 (cancel_stops_all_callbacks NewOrderModal 600 wideTrack runningModal
                         Unmount H Hc))).
Defined.

Lemma wide_handle_never_commits_witness :
  0 <= 140 < 2 ^ 31
  /\ 3 * 140 < 10 * 50
  /\ Forall (fun c => isAccept c = false)
       (snd (run NewOrderModal 600 (mkGeometry 140 50) (unmountedModal 600 freshWindow)
               [Mount props1; SwipeStart 0; SwipeMove 500; SwipeEnd])).
Proof.
  split; [lia|]. split; [lia|].
  apply (wide_handle_never_commits NewOrderModal 600 (mkGeometry 140 50)); simpl; lia.
Defined.

Lemma begin_keeps_stored_offset_witness :
  sliderRendered NewOrderModal props2 = true
  /\ order props2 = Some order2
  /\ snd (run NewOrderModal 600 wideTrack
            (mkModal true props2 (set_swipeDeltaRef 280 (initialComponent 600)) freshWindow)
            [SwipeStart 7; SwipeEnd])
     = (if overThreshold 280 (sliderWidth wideTrack)
        then [UpdateStatus (order_id order2) PREPARING] else []).
Proof.
  split; [reflexivity|]. split; [reflexivity|].
  exact (proj1 (proj2 (begin_keeps_stored_offset NewOrderModal 600 wideTrack props2
                         (set_swipeDeltaRef 280 (initialComponent 600)) freshWindow order2 7
                         eq_refl eq_refl))).
Defined.

(** Scenario D, on the store of the specification. *)
Example scenario_D :
  transition PREPARING READY_FOR_PICKUP = Success READY_FOR_PICKUP
  /\ transition READY_FOR_PICKUP PREPARING = InvalidTransitionError.
Proof. split; reflexivity. Qed.

(** * Further properties of the sources *)

(** ** The remaining time *)

Lemma timerEffect_timeLeft s D p c w :
  timeLeft (fst (timerEffect s D p c w)) = timeLeft c
  \/ timeLeft (fst (timerEffect s D p c w)) = D.
Proof. unfold timerEffect. destruct (timerCondition s p); [right | left]; reflexivity. Qed.

Lemma handleSwipeStart_timeLeft s p x c : timeLeft (handleSwipeStart s p x c) = timeLeft c.
Proof. unfold handleSwipeStart. now destruct (negb _). Qed.

Lemma handleSwipeMove_timeLeft sr hr x c : timeLeft (handleSwipeMove sr hr x c) = timeLeft c.
Proof. unfold handleSwipeMove. destruct (negb _), sr, hr; reflexivity. Qed.

Lemma handleSwipeEnd_timeLeft s p sr c : timeLeft (fst (handleSwipeEnd s p sr c)) = timeLeft c.
Proof.
  unfold handleSwipeEnd. destruct (negb _); [reflexivity|].
  destruct sr; [|reflexivity]. now destruct (overThreshold _ _).
Qed.

Lemma step_timeLeft_range s D g m e :
  0 <= D -> 0 <= timeLeft (comp m) <= D ->
  0 <= timeLeft (comp (fst (step s D g m e))) <= D.
Proof.
  intros HD H. destruct m as [b p c w]. cbn [comp] in H.
  destruct e; cbn [step mounted props comp win].
  - destruct b; [exact H|].
    destruct (timerEffect_timeLeft s D p0 (initialComponent D) w) as [E|E];
      destruct (timerEffect s D p0 (initialComponent D) w); cbn [fst comp] in *;
      rewrite E; simpl; lia.
  - destruct b; [|exact H]. destruct (timerDepsChanged s p p0); [|exact H].
    destruct (timerEffect_timeLeft s D p0 c (timerCleanup c w)) as [E|E];
      destruct (timerEffect s D p0 c (timerCleanup c w)); cbn [fst comp] in *;
      rewrite E; lia.
  - destruct b; exact H.
  - destruct (timers w !! i); [|exact H].
    unfold intervalCallback. destruct (timeLeft c <=? 1) eqn:E; simpl; [lia|].
    apply Z.leb_gt in E. lia.
  - destruct (b && sliderRendered s p); [|exact H].
    cbn [fst comp]. now rewrite handleSwipeStart_timeLeft.
  - destruct b; [|exact H]. cbn [fst comp]. now rewrite handleSwipeMove_timeLeft.
  - destruct b; [|exact H].
    pose proof (handleSwipeEnd_timeLeft s p (refWidth s p (sliderWidth g)) c) as E.
    destruct (handleSwipeEnd s p (refWidth s p (sliderWidth g)) c). cbn [fst comp] in *.
    now rewrite E.
  - destruct (b && modalRendered s p); exact H.
  - destruct (b && modalRendered s p); exact H.
  - destruct (b && modalRendered s p && statusIs PREPARING p); exact H.
  - destruct (b && modalRendered s p && statusIs READY_FOR_PICKUP p); exact H.
Qed.

Lemma run_timeLeft_range s D g es :
  0 <= D -> forall m, 0 <= timeLeft (comp m) <= D ->
  0 <= timeLeft (comp (fst (run s D g m es))) <= D.
Proof.
  intros HD. induction es as [|e es IH]; intros m Hm; cbn [run]; [exact Hm|].
  pose proof (step_timeLeft_range s D g m e HD Hm) as H1.
  destruct (step s D g m e) as [m1 c1]. cbn [fst] in H1.
  specialize (IH m1 H1). destruct (run s D g m1 es). exact IH.
Qed.

(** X1.  In every state the component can reach, the remaining time lies
    between 0 and the duration, so the width of the countdown bar,
    [timeLeft / duration * 100] per cent, lies between 0 and 100; and an
    interval firing lowers the remaining time by at most one and never raises
    it. *)
Theorem timeLeft_within_duration (s : Surface) (D : Z) (g : Geometry) (m : Modal) :
  0 <= D ->
  reachable s D g m ->
  0 <= timeLeft (comp m) <= D
  /\ 0 <= timeLeft (comp m) * 100 <= D * 100
  /\ forall i,
       timeLeft (comp m) - 1 <= timeLeft (comp (fst (step s D g m (IntervalFires i))))
       <= timeLeft (comp m).
Proof.
  intros HD [es <-].
  assert (H : 0 <= timeLeft (comp (fst (run s D g (unmountedModal D freshWindow) es))) <= D).
  { apply run_timeLeft_range; [assumption | simpl; lia]. }
  split; [exact H|]. split; [lia|].
  intros i. destruct (fst (run s D g (unmountedModal D freshWindow) es)) as [b p c w].
  cbn [comp] in *. cbn [step mounted props comp win]. destruct (timers w !! i); [|cbn; lia].
  unfold intervalCallback. destruct (timeLeft c <=? 1) eqn:E; simpl.
  - apply Z.leb_le in E. lia.
  - apply Z.leb_gt in E. lia.
Qed.

(** X2.  In every reachable state at most one interval of the component is
    active, it is the one whose identifier [timerIntervalRef] holds, and an
    unmounted component has none. *)
Theorem at_most_one_active_interval (s : Surface) (D : Z) (g : Geometry) (m : Modal) :
  reachable s D g m ->
  (forall i j ci cj,
     timers (win m) !! i = Some ci -> timers (win m) !! j = Some cj ->
     i = j /\ timerIntervalRef (comp m) = Some i)
  /\ (mounted m = false -> timers (win m) = ∅).
Proof.
  intros Hr. apply reachable_inv in Hr. destruct Hr as [Ht Hu]. split; [|exact Hu].
  intros i j ci cj Hi Hj. apply Ht in Hi as [Hi _]. apply Ht in Hj as [Hj _].
  split; [congruence | exact Hi].
Qed.

(** ** The details view under the screen *)

Lemma step_user_timers s D g m e i closure :
  userEvent e = true ->
  timers (win (fst (step s D g m e))) !! i = Some closure ->
  timers (win m) !! i = Some closure.
Proof.
  intros Hu. destruct m as [b p c w].
  destruct e; try discriminate; cbn [step mounted props comp win].
  - destruct (timers w !! i0) as [cl|]; [|auto].
    unfold intervalCallback. destruct (timeLeft c <=? 1); cbn [fst win]; [|auto].
    destruct (timerIntervalRef c) as [j|]; cbn [clearIntervalRef clearInterval timers]; [|auto].
    intros H. apply lookup_delete_Some in H as [_ H]. exact H.
  - destruct (b && sliderRendered s p); auto.
  - destruct b; auto.
  - destruct b; [|auto]. destruct (handleSwipeEnd _ _ _ _); auto.
  - destruct (b && modalRendered s p); auto.
  - destruct (b && modalRendered s p); auto.
  - destruct (b && modalRendered s p && statusIs PREPARING p); auto.
  - destruct (b && modalRendered s p && statusIs READY_FOR_PICKUP p); auto.
Qed.

Lemma detailProps_deps_changed p o n :
  onUpdateStatus p <> n ->
  timerDepsChanged OrderDetailsModal p (detailProps o n) = true.
Proof.
  intros Hne. unfold timerDepsChanged. cbn [detailProps onUpdateStatus].
  apply Nat.eqb_neq in Hne. rewrite Hne. now rewrite andb_false_r.
Qed.

Lemma timerEffect_closure D p c w :
  timers w = ∅ ->
  forall i closure,
    timers (snd (timerEffect OrderDetailsModal D p c w)) !! i = Some closure ->
    closure = p /\ statusIs NEW closure = true.
Proof.
  intros Hw i cl. rewrite timerEffect_from_empty by assumption.
  destruct (timerCondition OrderDetailsModal p) eqn:Hc; cbn [snd timers].
  - intros H. apply lookup_singleton_Some in H as [_ <-].
    split; [reflexivity|]. unfold timerCondition in Hc. now apply andb_prop in Hc as [_ Hc].
  - rewrite Hw, lookup_empty. discriminate.
Qed.

Lemma renderScreen_selected g o n m :
  modalInv m ->
  (mounted m = true -> onUpdateStatus (props m) <> n) ->
  mounted (renderScreen g (Some o) n m) = true
  /\ props (renderScreen g (Some o) n m) = detailProps o n
  /\ forall i closure,
       timers (win (renderScreen g (Some o) n m)) !! i = Some closure ->
       closure = props (renderScreen g (Some o) n m) /\ statusIs NEW closure = true.
Proof.
  intros [Ht Hu] Hn. unfold renderScreen. destruct m as [b p c w].
  cbn [mounted props comp win] in *. destruct b.
  - cbn [step mounted props comp win].
    rewrite detailProps_deps_changed by (now apply Hn).
    assert (Hclean : timers (timerCleanup c w) = ∅).
    { apply cleanup_noTimer. intros i cl Hi. now apply Ht in Hi. }
    pose proof (timerEffect_closure 150 (detailProps o n) c (timerCleanup c w) Hclean) as Hcl.
    destruct (timerEffect OrderDetailsModal 150 (detailProps o n) c (timerCleanup c w)).
    cbn [fst snd mounted props win] in *. auto.
  - cbn [step mounted props comp win].
    pose proof (timerEffect_closure 150 (detailProps o n) (initialComponent 150) w
                  (Hu eq_refl)) as Hcl.
    destruct (timerEffect OrderDetailsModal 150 (detailProps o n) (initialComponent 150) w).
    cbn [fst snd mounted props win] in *. auto.
Qed.

Lemma renderScreen_none_unmounted g n m :
  modalInv m ->
  mounted (renderScreen g None n m) = false /\ timers (win (renderScreen g None n m)) = ∅.
Proof.
  intros [Ht Hu]. unfold renderScreen. destruct m as [b p c w].
  cbn [mounted props comp win] in *. cbn [step mounted props comp win]. destruct b; cbn.
  - split; [reflexivity|]. apply cleanup_noTimer. intros i cl Hi. now apply Ht in Hi.
  - split; [reflexivity|]. now apply Hu.
Qed.

Lemma screenStep_detailInv g s e :
  screenInv s -> detailInv s -> detailInv (fst (screenStep g s e)).
Proof.
  intros (Hm & Hsel & Hopen) (Hd1 & Hd2 & Hd3).
  assert (Hfresh : mounted (detail s) = true ->
                   onUpdateStatus (props (detail s)) <> S (renderCount s)).
  { intros Hb. destruct (Hd1 Hb) as (o & n & _ & -> & Hn). cbn. lia. }
  destruct e; cbn [screenStep fst].
  - destruct (renderScreen_selected g o (S (renderCount s)) (detail s) Hm Hfresh)
      as (H1 & H2 & H3).
    split; [|split]; cbn [detail selectedOrder renderCount].
    + intros _. exists o, (S (renderCount s)). auto.
    + intros _. exact H1.
    + exact H3.
  - destruct (selectedOrder s) as [o|] eqn:Hso.
    + destruct (renderScreen_selected g o (S (renderCount s)) (detail s) Hm Hfresh)
        as (H1 & H2 & H3).
      split; [|split]; cbn [detail selectedOrder renderCount].
      * intros _. exists o, (S (renderCount s)). auto.
      * intros _. exact H1.
      * exact H3.
    + destruct (renderScreen_none_unmounted g (S (renderCount s)) (detail s) Hm) as [H1 H2].
      split; [|split]; cbn [detail selectedOrder renderCount].
      * rewrite H1. discriminate.
      * congruence.
      * intros i cl. rewrite H2, lookup_empty. discriminate.
  - destruct (userEvent e) eqn:Hu; [|split; [|split]; assumption].
    pose proof (step_inv OrderDetailsModal 150 g (detail s) e Hm) as Hi.
    destruct (step_user_mounted_props OrderDetailsModal 150 g (detail s) e Hu) as [Hb Hp].
    pose proof (fun i cl => step_user_timers OrderDetailsModal 150 g (detail s) e i cl Hu) as Hsub.
    destruct (step OrderDetailsModal 150 g (detail s) e) as [m calls]. cbn [fst] in *.
    destruct calls as [|c cs]; [|rewrite ownerCalls_cons]; cbn [fst].
    + split; [|split]; cbn [detail selectedOrder renderCount].
      * rewrite Hb, Hp. exact Hd1.
      * rewrite Hb. exact Hd2.
      * intros i cl Hicl. rewrite Hp. apply Hd3 with i. now apply Hsub.
    + destruct (renderScreen_none_unmounted g (S (renderCount s)) m Hi) as [H1 H2].
      split; [|split]; cbn [detail selectedOrder renderCount].
      * rewrite H1. discriminate.
      * congruence.
      * intros i cl. rewrite H2, lookup_empty. discriminate.
Qed.

Lemma initialScreen_detailInv : detailInv initialScreen.
Proof.
  split; [|split]; cbn.
  - discriminate.
  - congruence.
  - intros i cl. rewrite lookup_empty. discriminate.
Qed.

Lemma screenRun_detailInv g es :
  forall s, screenInv s -> detailInv s -> detailInv (fst (screenRun g s es)).
Proof.
  induction es as [|e es IH]; intros s Hs Hd; cbn [screenRun]; [exact Hd|].
  pose proof (screenStep_inv g s e Hs) as H1.
  pose proof (screenStep_detailInv g s e Hs Hd) as H2.
  destruct (screenStep g s e) as [s1 c1]. cbn [fst] in *.
  specialize (IH s1 H1 H2). destruct (screenRun g s1 es). exact IH.
Qed.

Lemma screenReachable_detailInv g s : screenReachable g s -> detailInv s.
Proof.
  intros [es <-]. apply screenRun_detailInv; [apply initialScreen_inv | apply initialScreen_detailInv].
Qed.

(** X3.  [handleUpdateStatus] is made anew by every render of [OrdersScreen]
    and is a dependency of the details view's timer effect: whenever the
    screen renders while the details of a [NEW] order are open, the countdown
    starts over at 150 ticks on a new interval, the previous one being
    cleared, and nothing is requested. *)
Theorem screen_render_restarts_countdown (g : Geometry) (scr : OrdersScreen) (o : Order) :
  screenReachable g scr ->
  selectedOrder scr = Some o ->
  status o = NEW ->
  snd (screenStep g scr ScreenRender) = []
  /\ selectedOrder (fst (screenStep g scr ScreenRender)) = Some o
  /\ timeLeft (comp (detail (fst (screenStep g scr ScreenRender)))) = 150
  /\ timers (win (detail (fst (screenStep g scr ScreenRender))))
     = {[ nextTimer (win (detail scr)) := detailProps o (S (renderCount scr)) ]}.
Proof.
  intros Hr Hsel Hst.
  pose proof (screenReachable_inv g scr Hr) as (Hm & _ & _).
  pose proof (screenReachable_detailInv g scr Hr) as (Hd1 & Hd2 & _).
  assert (Hb : mounted (detail scr) = true) by (apply Hd2; congruence).
  destruct (Hd1 Hb) as (o' & n & Hsel' & Hp & Hn).
  cbn [screenStep fst snd selectedOrder detail]. rewrite Hsel.
  unfold renderScreen. rewrite Hb.
  rewrite (render_reset OrderDetailsModal 150 g (detail scr) (detailProps o (S (renderCount scr)))
             Hm Hb).
  - cbn. auto.
  - apply detailProps_deps_changed. rewrite Hp. cbn. lia.
  - unfold timerCondition, statusIs. cbn. now rewrite Hst.
Qed.

Lemma details_step_requests D g m e o orderId target :
  userEvent e = true ->
  order (props m) = Some o ->
  (forall i closure, timers (win m) !! i = Some closure ->
     closure = props m /\ statusIs NEW closure = true) ->
  In (UpdateStatus orderId target) (snd (step OrderDetailsModal D g m e)) ->
  orderId = order_id o /\ requestedEdge (status o) target.
Proof.
  intros Hu Ho Hcl. destruct m as [b p c w]. cbn [props win] in *.
  assert (Hst : forall st, statusIs st p = true -> status o = st).
  { intros st. unfold statusIs. rewrite Ho. apply bool_decide_eq_true. }
  destruct e; try discriminate; cbn [step mounted props comp win].
  - destruct (timers w !! i) as [cl|] eqn:Hi; [|intros []].
    destruct (Hcl i cl Hi) as [-> Hnew].
    unfold intervalCallback. destruct (timeLeft c <=? 1); [|intros []].
    cbn [snd onExpire]. rewrite Ho. intros [H|[]]. inversion H; subst.
    split; [reflexivity|]. left. rewrite (Hst NEW Hnew). auto.
  - destruct (b && sliderRendered OrderDetailsModal p); intros [].
  - destruct b; intros [].
  - destruct b; [|intros []].
    unfold handleSwipeEnd, refWidth. destruct (negb _); [intros []|].
    destruct (sliderRendered OrderDetailsModal p) eqn:Hsr; [|intros []].
    destruct (overThreshold _ _); [|intros []].
    rewrite Ho. cbn [snd]. intros [H|[]]. inversion H; subst.
    split; [reflexivity|]. left.
    unfold sliderRendered in Hsr. apply andb_prop in Hsr as [_ Hnew].
    rewrite (Hst NEW Hnew). auto.
  - destruct (b && modalRendered OrderDetailsModal p); [|intros []].
    cbn [snd]. intros [H|[]]. discriminate.
  - destruct (b && modalRendered OrderDetailsModal p); [|intros []].
    cbn [snd]. intros [H|[]]. discriminate.
  - destruct (b && modalRendered OrderDetailsModal p && statusIs PREPARING p) eqn:E;
      [|intros []].
    apply andb_prop in E as [_ E]. unfold orderCall. rewrite Ho. cbn [snd].
    intros [H|[]]. inversion H; subst. split; [reflexivity|].
    right. left. rewrite (Hst PREPARING E). auto.
  - destruct (b && modalRendered OrderDetailsModal p && statusIs READY_FOR_PICKUP p) eqn:E;
      [|intros []].
    apply andb_prop in E as [_ E]. unfold orderCall. rewrite Ho. cbn [snd].
    intros [H|[]]. inversion H; subst. split; [reflexivity|].
    right. right. rewrite (Hst READY_FOR_PICKUP E). auto.
Qed.

Lemma forwarded_In c calls : In c (forwarded calls) -> In c calls.
Proof. unfold forwarded. intros H. apply filter_In in H. tauto. Qed.

Lemma screenStep_requests g s e orderId target :
  screenInv s -> detailInv s ->
  In (UpdateStatus orderId target) (snd (screenStep g s e)) ->
  exists o, selectedOrder s = Some o /\ orderId = order_id o
            /\ requestedEdge (status o) target.
Proof.
  intros (Hm & Hsel & Hopen) (Hd1 & Hd2 & Hd3).
  destruct e; cbn [screenStep snd]; try (intros []).
  destruct (userEvent e) eqn:Hu; [|intros []].
  destruct (mounted (detail s)) eqn:Hb.
  - destruct (Hd1 eq_refl) as (o & n & Hso & Hp & Hn).
    pose proof (details_step_requests 150 g (detail s) e o orderId target Hu) as Hreq.
    rewrite Hp in Hreq. specialize (Hreq eq_refl).
    rewrite <- Hp in Hreq. specialize (Hreq Hd3).
    destruct (step OrderDetailsModal 150 g (detail s) e) as [m calls]. cbn [snd] in Hreq.
    destruct calls as [|c cs]; [intros []|]. rewrite ownerCalls_cons. cbn [snd].
    intros Hin. apply forwarded_In in Hin. exists o. split; [exact Hso|]. now apply Hreq.
  - rewrite step_unmounted_silent; [intros [] | exact Hb | | exact Hu].
    destruct Hm as [_ Hm]. now apply Hm.
Qed.

(** X4.  Every status request that leaves [OrdersScreen] is for the order
    whose details are open and follows the order lifecycle from the status
    that order was selected with: [PREPARING] or [REJECTED] from [NEW],
    [READY_FOR_PICKUP] from [PREPARING], [COMPLETED] from
    [READY_FOR_PICKUP]; for an order that is [COMPLETED] or [REJECTED] nothing
    is ever requested. *)
Theorem details_requests_follow_lifecycle
  (g : Geometry) (scr : OrdersScreen) (e : ScreenEvent) (orderId : string)
  (target : OrderStatus) :
  screenReachable g scr ->
  In (UpdateStatus orderId target) (snd (screenStep g scr e)) ->
  exists o, selectedOrder scr = Some o /\ orderId = order_id o
            /\ requestedEdge (status o) target
            /\ status o <> COMPLETED /\ status o <> REJECTED.
Proof.
  intros Hr Hin.
  destruct (screenStep_requests g scr e orderId target (screenReachable_inv g scr Hr)
              (screenReachable_detailInv g scr Hr) Hin) as (o & Hso & Hid & Hedge).
  exists o. repeat split; try assumption.
  - intros Hc. destruct Hedge as [[H _]|[[H _]|[H _]]]; congruence.
  - intros Hc. destruct Hedge as [[H _]|[[H _]|[H _]]]; congruence.
Qed.

(** ** Tabs *)

Lemma filteredOrders_In orders f o :
  In o (filteredOrders orders f) <->
  In o orders
  /\ ((f = COMPLETED /\ (status o = COMPLETED \/ status o = REJECTED))
      \/ (f <> COMPLETED /\ status o = f)).
Proof.
  unfold filteredOrders. case_bool_decide as Hf; rewrite filter_In.
  - rewrite orb_true_iff, !bool_decide_eq_true. tauto.
  - rewrite bool_decide_eq_true. tauto.
Qed.

Lemma sublist_List_filter {A} (f : A -> bool) (l : list A) : sublist (List.filter f l) l.
Proof.
  induction l as [|a l IH]; cbn [List.filter]; [constructor|].
  destruct (f a); [now apply sublist_skip | now apply sublist_cons].
Qed.

(** X5.  The number on a tab is the number of cards the list shows when that
    tab is active, and the list shows the matching orders in the order of the
    [orders] array. *)
Theorem tab_count_is_list_length (orders : list Order) (f : OrderStatus) :
  tabCount orders f = length (filteredOrders orders f)
  /\ sublist (filteredOrders orders f) orders.
Proof.
  unfold tabCount, filteredOrders. destruct (bool_decide (f = COMPLETED)).
  - split; [reflexivity | apply sublist_List_filter].
  - split; [reflexivity | apply sublist_List_filter].
Qed.

Lemma filter_status_partition (orders : list Order) :
  (tabCount orders NEW + tabCount orders PREPARING + tabCount orders COMPLETED
   + length (List.filter (fun o => bool_decide (status o = READY_FOR_PICKUP)) orders))%nat
  = length orders.
Proof.
  unfold tabCount. induction orders as [|o os IH]; [reflexivity|].
  cbn [List.filter].
  repeat case_bool_decide; try discriminate; try congruence; cbn [orb length] in *;
    try lia; destruct (status o); congruence.
Qed.

Lemma filteredOrders_not_ready orders f o :
  In f filters -> In o (filteredOrders orders f) -> status o <> READY_FOR_PICKUP.
Proof.
  intros Hf Ho. apply filteredOrders_In in Ho as [_ Ho].
  destruct Hf as [<-|[<-|[<-|[]]]]; intuition congruence.
Qed.

(** X6.  An order that is [READY_FOR_PICKUP] is listed under none of the three
    tabs, whichever is active; every other order of the array is listed under
    exactly one of them; and the three tab counts add up to the number of
    orders that are not [READY_FOR_PICKUP]. *)
Theorem tabs_leave_out_ready_for_pickup (orders : list Order) :
  (forall f o, In f filters -> In o (filteredOrders orders f) ->
     status o <> READY_FOR_PICKUP)
  /\ (forall o, In o orders -> status o <> READY_FOR_PICKUP ->
        exists f, In f filters /\ In o (filteredOrders orders f)
                  /\ forall f', In f' filters -> In o (filteredOrders orders f') -> f' = f)
  /\ (tabCount orders NEW + tabCount orders PREPARING + tabCount orders COMPLETED
      + length (List.filter (fun o => bool_decide (status o = READY_FOR_PICKUP)) orders))%nat
     = length orders.
Proof.
  split; [|split].
  - intros f o. apply filteredOrders_not_ready.
  - intros o Ho Hst.
    assert (Huniq : forall f f', In f filters -> In f' filters ->
              In o (filteredOrders orders f) -> In o (filteredOrders orders f') -> f' = f).
    { intros f f' Hf Hf' H1 H2.
      apply filteredOrders_In in H1 as [_ H1]. apply filteredOrders_In in H2 as [_ H2].
      destruct Hf as [<-|[<-|[<-|[]]]], Hf' as [<-|[<-|[<-|[]]]]; intuition congruence. }
    assert (Hex : exists f, In f filters /\ In o (filteredOrders orders f)).
    { destruct (status o) eqn:E; [| | congruence | |].
      - exists NEW. split; [cbn; tauto|]. apply filteredOrders_In. split; [exact Ho|].
        right. split; congruence.
      - exists PREPARING. split; [cbn; tauto|]. apply filteredOrders_In. split; [exact Ho|].
        right. split; congruence.
      - exists COMPLETED. split; [cbn; tauto|]. apply filteredOrders_In. split; [exact Ho|].
        left. auto.
      - exists COMPLETED. split; [cbn; tauto|]. apply filteredOrders_In. split; [exact Ho|].
        left. auto. }
    destruct Hex as (f & Hf & Hin). exists f. split; [exact Hf|]. split; [exact Hin|].
    intros f' Hf' Hin'. now apply (Huniq f f').
  - apply filter_status_partition.
Qed.

(** ** The whole screen *)

Lemma screenStep_selection g s e :
  isCardClick e = false ->
  selectedOrder (fst (screenStep g s e)) = selectedOrder s
  \/ selectedOrder (fst (screenStep g s e)) = None.
Proof.
  intros Hc. destruct e; try discriminate; cbn [screenStep]; [left; reflexivity|].
  destruct (userEvent e); [|left; reflexivity].
  destruct (step OrderDetailsModal 150 g (detail s) e) as [m calls].
  destruct calls; [left; reflexivity|]. rewrite ownerCalls_cons. right. reflexivity.
Qed.

Lemma viewStep_inv g v e : viewInv v -> viewInv (fst (viewStep g v e)).
Proof.
  intros (Hs & Hd & Hf & Hsel).
  assert (Hv : viewInv v) by (split; [|split; [|split]]; assumption).
  assert (Hscreen : forall se os f,
            In f filters ->
            (forall o, selectedOrder (fst (screenStep g (screen v) se)) = Some o ->
                       status o <> READY_FOR_PICKUP) ->
            viewInv (mkView os f (fst (screenStep g (screen v) se)))).
  { intros se os f Hin Hso. split; [now apply screenStep_inv|].
    split; [now apply screenStep_detailInv|]. split; assumption. }
  assert (Hkeep : forall se, isCardClick se = false ->
            forall o, selectedOrder (fst (screenStep g (screen v) se)) = Some o ->
                      status o <> READY_FOR_PICKUP).
  { intros se Hse o Ho. destruct (screenStep_selection g (screen v) se Hse) as [E|E];
      rewrite E in Ho; [now apply Hsel | discriminate]. }
  destruct e; cbn [viewStep].
  - specialize (Hscreen ScreenRender os (activeFilter v) Hf (Hkeep ScreenRender eq_refl)).
    now destruct (screenStep g (screen v) ScreenRender).
  - specialize (Hscreen ScreenRender (orders v) (activeFilter v) Hf (Hkeep ScreenRender eq_refl)).
    now destruct (screenStep g (screen v) ScreenRender).
  - destruct (filters !! k) as [f|] eqn:Hk; [|exact Hv].
    destruct (bool_decide (f = activeFilter v)); [exact Hv|].
    assert (Hin : In f filters).
    { apply list_elem_of_In. now apply list_elem_of_lookup_2 with k. }
    specialize (Hscreen ScreenRender (orders v) f Hin (Hkeep ScreenRender eq_refl)).
    now destruct (screenStep g (screen v) ScreenRender).
  - destruct (filteredOrders (orders v) (activeFilter v) !! k) as [o|] eqn:Hk; [|exact Hv].
    assert (Ho : status o <> READY_FOR_PICKUP).
    { apply (filteredOrders_not_ready (orders v) (activeFilter v) o Hf).
      apply list_elem_of_In. now apply list_elem_of_lookup_2 with k. }
    assert (Hso : forall o', selectedOrder (fst (screenStep g (screen v) (CardClick o))) = Some o'
                             -> status o' <> READY_FOR_PICKUP).
    { cbn [screenStep fst selectedOrder]. intros o' E. inversion E; subst. exact Ho. }
    specialize (Hscreen (CardClick o) (orders v) (activeFilter v) Hf Hso).
    now destruct (screenStep g (screen v) (CardClick o)).
  - specialize (Hscreen (ModalEvent e) (orders v) (activeFilter v) Hf
                  (Hkeep (ModalEvent e) eq_refl)).
    now destruct (screenStep g (screen v) (ModalEvent e)).
Qed.

Lemma initialView_inv os : viewInv (initialView os).
Proof.
  split; [apply initialScreen_inv|]. split; [apply initialScreen_detailInv|].
  split; [cbn; tauto | discriminate].
Qed.

Lemma viewStep_requests g v e orderId target :
  viewInv v ->
  In (UpdateStatus orderId target) (snd (viewStep g v e)) ->
  exists o, selectedOrder (screen v) = Some o /\ orderId = order_id o
            /\ requestedEdge (status o) target /\ status o <> READY_FOR_PICKUP.
Proof.
  intros (Hs & Hd & Hf & Hsel) Hin.
  assert (Hgen : forall se, In (UpdateStatus orderId target) (snd (screenStep g (screen v) se)) ->
            exists o, selectedOrder (screen v) = Some o /\ orderId = order_id o
                      /\ requestedEdge (status o) target /\ status o <> READY_FOR_PICKUP).
  { intros se Hse.
    destruct (screenStep_requests g (screen v) se orderId target Hs Hd Hse) as (o & Ho & Hid & He).
    exists o. repeat split; try assumption. now apply Hsel. }
  destruct e; cbn [viewStep] in Hin.
  - apply (Hgen ScreenRender). now destruct (screenStep g (screen v) ScreenRender).
  - apply (Hgen ScreenRender). now destruct (screenStep g (screen v) ScreenRender).
  - destruct (filters !! k); [|destruct Hin].
    destruct (bool_decide (o = activeFilter v)); [destruct Hin|].
    apply (Hgen ScreenRender). now destruct (screenStep g (screen v) ScreenRender).
  - destruct (filteredOrders (orders v) (activeFilter v) !! k) as [o|]; [|destruct Hin].
    apply (Hgen (CardClick o)). now destruct (screenStep g (screen v) (CardClick o)).
  - apply (Hgen (ModalEvent e)). now destruct (screenStep g (screen v) (ModalEvent e)).
Qed.

(** X7.  Under [OrdersScreen] the details view is only ever opened on an
    order shown in the list, so never on one that is [READY_FOR_PICKUP]:
    whatever the [orders] arrays passed in and whatever the user does, the
    screen never requests [COMPLETED]; every request it issues is [PREPARING],
    [REJECTED] or [READY_FOR_PICKUP]. *)
Theorem orders_screen_never_requests_completed
  (g : Geometry) (os : list Order) (es : list ViewEvent) :
  Forall (fun c => exists orderId,
            c = UpdateStatus orderId PREPARING \/ c = UpdateStatus orderId REJECTED
            \/ c = UpdateStatus orderId READY_FOR_PICKUP)
    (snd (viewRun g (initialView os) es))
  /\ forall o, selectedOrder (screen (fst (viewRun g (initialView os) es))) = Some o ->
       status o <> READY_FOR_PICKUP.
Proof.
  assert (Hgen : forall v, viewInv v ->
            Forall (fun c => exists orderId,
                      c = UpdateStatus orderId PREPARING \/ c = UpdateStatus orderId REJECTED
                      \/ c = UpdateStatus orderId READY_FOR_PICKUP)
              (snd (viewRun g v es))
            /\ viewInv (fst (viewRun g v es))).
  { induction es as [|e es IH]; intros v Hv; cbn [viewRun]; [split; [constructor | exact Hv]|].
    pose proof (viewStep_inv g v e Hv) as H1.
    pose proof (fun id t => viewStep_requests g v e id t Hv) as H2.
    assert (H3 : Forall (fun c => exists id t, c = UpdateStatus id t) (snd (viewStep g v e))).
    { destruct Hv as (Hs & _).
      assert (Hfw : forall se, Forall (fun c => exists id t, c = UpdateStatus id t)
                                 (snd (screenStep g (screen v) se))).
      { intros se. destruct se; cbn [screenStep snd]; try constructor.
        destruct (userEvent e0); [|constructor].
        destruct (step OrderDetailsModal 150 g (detail (screen v)) e0) as [m calls].
        destruct calls as [|c cs]; [constructor|]. rewrite ownerCalls_cons. cbn [snd].
        apply List.Forall_forall. intros x Hx. unfold forwarded in Hx.
        apply filter_In in Hx as [_ Hx]. destruct x; [eauto | discriminate]. }
      destruct e; cbn [viewStep].
      - specialize (Hfw ScreenRender). now destruct (screenStep g (screen v) ScreenRender).
      - specialize (Hfw ScreenRender). now destruct (screenStep g (screen v) ScreenRender).
      - destruct (filters !! k); [|constructor].
        destruct (bool_decide _); [constructor|].
        specialize (Hfw ScreenRender). now destruct (screenStep g (screen v) ScreenRender).
      - destruct (filteredOrders _ _ !! k) as [o|]; [|constructor].
        specialize (Hfw (CardClick o)). now destruct (screenStep g (screen v) (CardClick o)).
      - specialize (Hfw (ModalEvent e)). now destruct (screenStep g (screen v) (ModalEvent e)). }
    destruct (viewStep g v e) as [v1 c1]. cbn [fst snd] in *.
    destruct (IH v1 H1) as [IH1 IH2]. destruct (viewRun g v1 es) as [v2 c2]. cbn [fst snd] in *.
    split; [|exact IH2]. apply Forall_app. split; [|exact IH1].
    apply List.Forall_forall. intros c Hc.
    pose proof (proj1 (List.Forall_forall _ _) H3 c Hc) as (id & t & ->).
    destruct (H2 id t Hc) as (o & _ & _ & Hedge & Hnr). exists id.
    destruct Hedge as [[_ [->| ->]]|[[_ ->]|[Hr _]]]; auto. contradiction. }
  destruct (Hgen (initialView os) (initialView_inv os)) as [H1 (_ & _ & _ & H2)].
  split; [exact H1 | exact H2].
Qed.

(** ** A gesture that outlives its order *)

Lemma timerEffect_swipe s D p c w :
  isSwiping (fst (timerEffect s D p c w)) = isSwiping c
  /\ swipeStartX (fst (timerEffect s D p c w)) = swipeStartX c
  /\ swipeDeltaRef (fst (timerEffect s D p c w)) = swipeDeltaRef c.
Proof. unfold timerEffect. destruct (timerCondition s p); auto. Qed.

Lemma step_Render_mounted s D g p c w p' :
  exists c' w',
    step s D g (mkModal true p c w) (Render p') = (mkModal true p' c' w', [])
    /\ isSwiping c' = isSwiping c /\ swipeStartX c' = swipeStartX c
    /\ swipeDeltaRef c' = swipeDeltaRef c.
Proof.
  cbn [step mounted props comp win]. destruct (timerDepsChanged s p p').
  - pose proof (timerEffect_swipe s D p' c (timerCleanup c w)) as H.
    destruct (timerEffect s D p' c (timerCleanup c w)) as [c' w']. cbn [fst] in H.
    exists c', w'. auto.
  - exists c, w. auto.
Qed.

(** X8.  In [NewOrderModal] a release that arrives while there is no order
    returns before [setIsSwiping(false)], so the gesture stays active with its
    start position: once an order is shown again, a pointer move followed by a
    release, with no new press on the handle, is judged like the end of a
    drag from the old start position and accepts the order when over the
    threshold.  In [OrderDetailsModal] every release ends the gesture. *)
Theorem release_without_order_keeps_gesture
  (D : Z) (g : Geometry) (p p0 p' : Props) (c : Component) (w : Window) (o : Order) (x : Z) :
  isSwiping c = true ->
  order p0 = None ->
  sliderRendered NewOrderModal p' = true ->
  order p' = Some o ->
  step NewOrderModal D g (mkModal true p0 c w) SwipeEnd = (mkModal true p0 c w, [])
  /\ snd (run NewOrderModal D g (mkModal true p c w)
            [Render p0; SwipeEnd; Render p'; SwipeMove x; SwipeEnd])
     = (if overThreshold (clampOffset (x - swipeStartX c) (sliderWidth g - handleWidth g))
             (sliderWidth g)
        then [UpdateStatus (order_id o) PREPARING] else [])
  /\ (forall p1 c1 w1,
        isSwiping (comp (fst (step OrderDetailsModal D g (mkModal true p1 c1 w1) SwipeEnd)))
        = false).
Proof.
  intros Ha Hnone Hs Ho.
  assert (Hend : forall c1 w1, step NewOrderModal D g (mkModal true p0 c1 w1) SwipeEnd
                               = (mkModal true p0 c1 w1, [])).
  { intros c1 w1. cbn [step mounted props comp win].
    unfold handleSwipeEnd, swipeEndGuard, hasOrder. rewrite Hnone.
    now rewrite andb_false_r. }
  split; [apply Hend|]. split.
  - cbn [run].
    destruct (step_Render_mounted NewOrderModal D g p c w p0) as (c1 & w1 & -> & Ha1 & Hx1 & _).
    rewrite Hend.
    destruct (step_Render_mounted NewOrderModal D g p0 c1 w1 p') as (c2 & w2 & -> & Ha2 & Hx2 & _).
    rewrite step_SwipeMove_active by (auto; congruence).
    erewrite step_SwipeEnd_active by (eauto; cbn; congruence).
    cbn [swipeDeltaRef set_handleTranslateX set_swipeDeltaRef].
    rewrite Hx2, Hx1. now destruct (overThreshold _ _).
  - intros p1 c1 w1. cbn [step mounted props comp win].
    unfold handleSwipeEnd, swipeEndGuard. destruct (isSwiping c1) eqn:E; cbn [negb].
    + destruct (refWidth OrderDetailsModal p1 (sliderWidth g)); [|reflexivity].
      now destruct (overThreshold _ _).
    + exact E.
Qed.

(** ** [TimeAgo] *)

Example quotient_is_exact_small :
  forallb (fun d => forallb (quotient_agrees d) (map Z.of_nat (seq 0 4000))) timeAgoDivisors
  = true.
Proof. vm_compute. reflexivity. Qed.

Example quotient_is_exact_at_multiples :
  forallb (fun d =>
    forallb (fun k => quotient_agrees d (Z.of_nat k * d - 1)
                      && quotient_agrees d (Z.of_nat k * d)
                      && quotient_agrees d (Z.of_nat k * d + 1))
      (seq 1 400))
    timeAgoDivisors = true.
Proof. vm_compute. reflexivity. Qed.

Lemma timeAgoParts_minutes (seconds : Z) :
  60 < seconds <= 3600 -> timeAgoParts seconds = (seconds / 60, "m ago").
Proof.
  intros H. unfold timeAgoParts.
  repeat match goal with
         | |- context [?a <? ?b] => destruct (Z.ltb_spec a b); try lia
         end.
  reflexivity.
Qed.

Lemma timeAgoParts_months (seconds : Z) :
  2592000 < seconds <= 31536000 ->
  timeAgoParts seconds = (seconds / 2592000, "m ago") /\ 1 <= seconds / 2592000 <= 12.
Proof.
  intros H. split; [|Z.div_mod_to_equations; lia]. unfold timeAgoParts.
  repeat match goal with
         | |- context [?a <? ?b] => destruct (Z.ltb_spec a b); try lia
         end.
  reflexivity.
Qed.

(** X9.  What [formatTimeAgo] shows: up to and including 60 seconds the
    seconds themselves (a negative number for a timestamp in the future); from
    61 seconds whole minutes, 1 to 60; above an hour whole hours, 1 to 24;
    above a day whole days, 1 to 30; above 30 days whole periods of 30 days,
    1 to 12, with the suffix of the minutes; above 365 days whole periods of
    365 days.  Each bound itself is still shown in the smaller unit. *)
Theorem timeAgo_units (seconds : Z) :
  (seconds <= 60 -> timeAgoParts seconds = (seconds, "s ago"))
  /\ (60 < seconds <= 3600 ->
      timeAgoParts seconds = (seconds / 60, "m ago") /\ 1 <= seconds / 60 <= 60)
  /\ (3600 < seconds <= 86400 ->
      timeAgoParts seconds = (seconds / 3600, "h ago") /\ 1 <= seconds / 3600 <= 24)
  /\ (86400 < seconds <= 2592000 ->
      timeAgoParts seconds = (seconds / 86400, "d ago") /\ 1 <= seconds / 86400 <= 30)
  /\ (2592000 < seconds <= 31536000 ->
      timeAgoParts seconds = (seconds / 2592000, "m ago") /\ 1 <= seconds / 2592000 <= 12)
  /\ (31536000 < seconds ->
      timeAgoParts seconds = (seconds / 31536000, "y ago") /\ 1 <= seconds / 31536000).
Proof.
  unfold timeAgoParts.
  repeat split; intros; repeat split;
    repeat match goal with
           | |- context [?a <? ?b] => destruct (Z.ltb_spec a b); try lia
           end;
    try reflexivity; try lia; Z.div_mod_to_equations; lia.
Qed.

(** X10.  The labels of the minutes and of the 30-day periods cannot be told
    apart: for every timestamp between 30 and 365 days old there is one
    between one minute and one hour old with the same text. *)
Theorem timeAgo_months_read_as_minutes (now timestamp : Z) :
  2592000 < elapsedSeconds now timestamp <= 31536000 ->
  exists timestamp',
    60 < elapsedSeconds now timestamp' <= 3600
    /\ formatTimeAgo now timestamp' = formatTimeAgo now timestamp.
Proof.
  intros Hs. set (s := elapsedSeconds now timestamp) in *.
  destruct (timeAgoParts_months s Hs) as [Hparts Hk].
  set (k := s / 2592000) in *. clearbody k.
  exists (now - 1000 * (60 * k + 1)).
  assert (Hs' : elapsedSeconds now (now - 1000 * (60 * k + 1)) = 60 * k + 1).
  { unfold elapsedSeconds. replace (now - (now - 1000 * (60 * k + 1))) with ((60 * k + 1) * 1000) by lia.
    apply Z.div_mul. lia. }
  rewrite Hs'. split; [lia|].
  unfold formatTimeAgo. rewrite Hs'. fold s. rewrite Hparts.
  rewrite (timeAgoParts_minutes (60 * k + 1)) by lia.
  replace ((60 * k + 1) / 60) with k; [reflexivity|].
  apply Z.div_unique with 1; lia.
Qed.

(** ** Texts *)

Lemma append_empty_l (s : string) : EmptyString +:+ s = s.
Proof. reflexivity. Qed.

Lemma append_String c (a b : string) : String c a +:+ b = String c (a +:+ b).
Proof. reflexivity. Qed.

(** ** [OrderStatusChip] *)

Lemma replaceFirst_length a b text :
  String.length (replaceFirst a b text) = String.length text.
Proof.
  induction text as [|c rest IH]; [reflexivity|].
  cbn [replaceFirst]. destruct (Ascii.eqb c a); cbn [String.length]; congruence.
Qed.

Lemma replaceFirst_absent a b text :
  countChar a text = 0%nat -> replaceFirst a b text = text.
Proof.
  induction text as [|c rest IH]; [reflexivity|].
  cbn [replaceFirst countChar]. destruct (Ascii.eqb c a); [discriminate|].
  intros H. now rewrite IH.
Qed.

Lemma replaceFirst_at a b pre post :
  countChar a pre = 0%nat ->
  replaceFirst a b (pre +:+ String a post) = pre +:+ String b post.
Proof.
  induction pre as [|c rest IH]; rewrite ?append_empty_l, ?append_String;
    cbn [replaceFirst countChar].
  - intros _. now rewrite Ascii.eqb_refl.
  - destruct (Ascii.eqb c a); [discriminate|]. intros H. now rewrite IH.
Qed.

(** X11.  The chip replaces the first underscore of the status text by a
    space and nothing else: the text keeps its length, every later underscore
    stays, and a text without underscore is shown as it is. *)
Theorem chipText_replaces_first_underscore_only (status : string) :
  String.length (chipText status) = String.length status
  /\ countChar "_" (chipText status) = Nat.pred (countChar "_" status)
  /\ (forall pre post, countChar "_" pre = 0%nat ->
        chipText (pre +:+ String "_" post) = pre +:+ String " " post)
  /\ (countChar "_" status = 0%nat -> chipText status = status).
Proof.
  unfold chipText. split; [apply replaceFirst_length|]. split; [|split].
  - induction status as [|c rest IH]; [reflexivity|].
    cbn [replaceFirst countChar]. destruct (Ascii.eqb c "_") eqn:E.
    + cbn [countChar]. reflexivity.
    + cbn [countChar]. rewrite E. exact IH.
  - intros pre post. apply replaceFirst_at.
  - apply replaceFirst_absent.
Qed.

(** ** The title of [NewOrderModal] *)

Lemma firstSegment_no_space name : countChar " " (firstSegment name) = 0%nat.
Proof.
  induction name as [|c rest IH]; [reflexivity|].
  cbn [firstSegment]. destruct (Ascii.eqb c " ") eqn:E; [reflexivity|].
  cbn [countChar]. now rewrite E.
Qed.

Lemma firstSegment_prefix name :
  exists rest, name = firstSegment name +:+ rest
               /\ (rest = EmptyString \/ exists r, rest = String " " r).
Proof.
  induction name as [|c rest IH].
  - exists EmptyString. auto.
  - cbn [firstSegment]. destruct (Ascii.eqb_spec c " ") as [->|Hne].
    + exists (String " " rest). split; [reflexivity|]. right. eauto.
    + destruct IH as (r & Hr & Hcase). exists r. split; [|exact Hcase].
      rewrite append_String. now rewrite <- Hr.
Qed.

(** X12.  The title shows the order id when the customer has no name, an
    empty name or a name that begins with a space; otherwise it shows the
    name up to its first space, which is not empty and holds no space.  The
    title is empty only if the id is. *)
Theorem customerFirstName_cases (name : option string) (orderId : string) :
  (name = None \/ name = Some EmptyString \/ (exists r, name = Some (String " " r)) ->
     customerFirstName name orderId = orderId)
  /\ (forall c r, name = Some (String c r) -> c <> " "%char ->
        customerFirstName name orderId = firstSegment (String c r)
        /\ customerFirstName name orderId <> EmptyString
        /\ countChar " " (customerFirstName name orderId) = 0%nat
        /\ exists rest, String c r = customerFirstName name orderId +:+ rest
                        /\ (rest = EmptyString \/ exists r', rest = String " " r'))
  /\ (orderId <> EmptyString -> customerFirstName name orderId <> EmptyString).
Proof.
  split; [|split].
  - intros [->|[->|[r ->]]]; reflexivity.
  - intros c r -> Hc. unfold customerFirstName.
    assert (E : firstSegment (String c r) = String c (firstSegment r)).
    { cbn [firstSegment]. destruct (Ascii.eqb_spec c " "); [contradiction | reflexivity]. }
    rewrite E. split; [reflexivity|]. split; [discriminate|].
    rewrite <- E. split; [apply firstSegment_no_space | apply firstSegment_prefix].
  - intros Hid. unfold customerFirstName. destruct name as [n|]; [|exact Hid].
    destruct (firstSegment n); [exact Hid | discriminate].
Qed.

(** ** [getWhatsAppUrl] *)

Lemma onlyDigits_allDigits text : allDigits (onlyDigits text) = true.
Proof.
  induction text as [|c rest IH]; [reflexivity|].
  cbn [onlyDigits]. destruct (isDigit c) eqn:E; [|exact IH].
  cbn [allDigits]. now rewrite E.
Qed.

Lemma onlyDigits_of_digits text : allDigits text = true -> onlyDigits text = text.
Proof.
  induction text as [|c rest IH]; [reflexivity|].
  cbn [allDigits onlyDigits]. intros H. apply andb_prop in H as [-> H]. now rewrite IH.
Qed.

Lemma onlyDigits_app a b : onlyDigits (a +:+ b) = onlyDigits a +:+ onlyDigits b.
Proof.
  induction a as [|c rest IH]; [reflexivity|].
  rewrite append_String. cbn [onlyDigits].
  destruct (isDigit c); rewrite ?append_String; now rewrite IH.
Qed.

(** X13.  The link is [https://wa.me/] followed by the digits of the number,
    in their order and with everything else dropped: what follows the prefix
    is digits only, a number made of digits is kept whole, and how the number
    is punctuated or spaced makes no difference to the link. *)
Theorem getWhatsAppUrl_keeps_digits_only (whatsappNumber : string) :
  (exists digits, getWhatsAppUrl whatsappNumber = "https://wa.me/" +:+ digits
                  /\ allDigits digits = true
                  /\ (String.length digits <= String.length whatsappNumber)%nat)
  /\ (allDigits whatsappNumber = true ->
      getWhatsAppUrl whatsappNumber = "https://wa.me/" +:+ whatsappNumber)
  /\ (forall a b, onlyDigits (a +:+ b) = onlyDigits a +:+ onlyDigits b)
  /\ (forall other, onlyDigits other = onlyDigits whatsappNumber ->
        getWhatsAppUrl other = getWhatsAppUrl whatsappNumber).
Proof.
  split; [|split; [|split]].
  - exists (onlyDigits whatsappNumber). split; [reflexivity|].
    split; [apply onlyDigits_allDigits|].
    induction whatsappNumber as [|c rest IH]; [cbn; lia|].
    cbn [onlyDigits]. destruct (isDigit c); cbn [String.length]; lia.
  - intros H. unfold getWhatsAppUrl. now rewrite onlyDigits_of_digits.
  - apply onlyDigits_app.
  - intros other H. unfold getWhatsAppUrl. now rewrite H.
Qed.

(** ** The catalog search *)

Lemma startsWith_spec text q :
  startsWith text q = true <-> exists post, text = q +:+ post.
Proof.
  revert text. induction q as [|c q IH]; intros text; cbn [startsWith].
  - split; [intros _; exists text; reflexivity | reflexivity].
  - destruct text as [|d text].
    + split; [discriminate | intros [post H]; discriminate].
    + rewrite andb_true_iff, IH. split.
      * intros [Hc [post ->]]. apply Ascii.eqb_eq in Hc as ->. exists post. reflexivity.
      * intros [post H]. rewrite append_String in H. inversion H; subst.
        split; [apply Ascii.eqb_refl | exists post; reflexivity].
Qed.

Lemma includes_spec text q :
  includes text q = true <-> exists pre post, text = pre +:+ q +:+ post.
Proof.
  induction text as [|c rest IH]; cbn [includes].
  - rewrite startsWith_spec. split.
    + intros [post H]. exists EmptyString, post. exact H.
    + intros (pre & post & H). destruct pre; [|discriminate]. exists post. exact H.
  - rewrite orb_true_iff, startsWith_spec, IH. split.
    + intros [[post H]|(pre & post & H)].
      * exists EmptyString, post. exact H.
      * exists (String c pre), post. rewrite append_String. now rewrite H.
    + intros (pre & post & H). destruct pre as [|d pre];
        rewrite ?append_empty_l, ?append_String in H.
      * left. exists post. exact H.
      * right. inversion H; subst. exists pre, post. reflexivity.
Qed.

Lemma string_app_assoc (a b c : string) : (a +:+ b) +:+ c = a +:+ (b +:+ c).
Proof.
  induction a as [|x a IH]; [reflexivity|]. rewrite !append_String. now rewrite IH.
Qed.

Lemma includes_trans text q q' :
  includes text q' = true -> includes q' q = true -> includes text q = true.
Proof.
  rewrite !includes_spec. intros (pre & post & ->) (pre' & post' & ->).
  exists (pre +:+ pre'), (post' +:+ post). now rewrite !string_app_assoc.
Qed.

Lemma filter_narrow_sublist {A} (f f' : A -> bool) (l : list A) :
  (forall a, f' a = true -> f a = true) ->
  sublist (List.filter f' l) (List.filter f l).
Proof.
  intros H. induction l as [|a l IH]; cbn [List.filter]; [constructor|].
  destruct (f' a) eqn:E'.
  - rewrite (H a E'). now apply sublist_skip.
  - destruct (f a); [now apply sublist_cons | exact IH].
Qed.

(** X14.  The catalog search, whatever the translation and the lower-casing
    functions are: the products shown are products of the list, in its order;
    a query that lower-cases to the empty text, the empty query included when
    lower-casing keeps it empty, shows every product; and when the lower-cased
    text of one query occurs inside that of another, every product the longer
    query shows is shown by the shorter one too. *)
Theorem catalog_search_narrows
  (t toLowerCase : string -> string) (products : list Product) (query : string) :
  sublist (filteredProducts t toLowerCase products query) products
  /\ (toLowerCase query = EmptyString ->
      filteredProducts t toLowerCase products query = products)
  /\ (forall longer,
        includes (toLowerCase longer) (toLowerCase query) = true ->
        sublist (filteredProducts t toLowerCase products longer)
                (filteredProducts t toLowerCase products query))
  /\ (forall other, toLowerCase other = toLowerCase query ->
        filteredProducts t toLowerCase products other
        = filteredProducts t toLowerCase products query).
Proof.
  unfold filteredProducts. split; [apply sublist_List_filter|]. split; [|split].
  - intros ->. induction products as [|p ps IH]; [reflexivity|].
    cbn [List.filter].
    assert (E : includes (toLowerCase (t (productName p))) EmptyString = true).
    { apply includes_spec. exists EmptyString, (toLowerCase (t (productName p))). reflexivity. }
    rewrite E. now rewrite IH.
  - intros longer Hin. apply filter_narrow_sublist.
    intros p Hp. now apply includes_trans with (toLowerCase longer).
  - intros other ->. reflexivity.
Qed.

Example catalog_search_example :
  map product_id
    (filteredProducts (fun s => s) asciiToLowerCase
       [mkProduct "p1" "Basmati Rice" 25; mkProduct "p2" "Brown Bread" 4;
        mkProduct "p3" "Rice Flour" 12] "RICE")
  = ["p1"; "p3"].
Proof. vm_compute. reflexivity. Qed.

(** ** Further theorems at concrete inputs *)

Example quotient_is_exact_for_milliseconds :
  forallb (quotient_agrees 1000)
    ([0; 1; 999; 1000; 1001; 59999; 60000; 60999; 61000; 3600000; 3600999; 86400000;
      2592000000; 2592000999; 2592001000; 31536000000; 31536000999; 31536001000;
      1762041600000; 4102444799999]
     ++ map Z.of_nat (seq 0 3000)) = true.
Proof. vm_compute. reflexivity. Qed.

Example formatTimeAgo_examples :
  map (formatTimeAgo 1762041600000)
    [1762041600000; 1762041540000; 1762041539000; 1762038000000; 1762037999000;
     1761955200000; 1759449600000; 1759449599000; 1730505600000; 1730505599000;
     1762041605000]
  = ["0s ago"; "60s ago"; "1m ago"; "60m ago"; "1h ago"; "24h ago"; "30d ago"; "1m ago";
     "12m ago"; "1y ago"; "-5s ago"].
Proof. vm_compute. reflexivity. Qed.

Lemma timeLeft_within_duration_witness :
  0 <= 600
  /\ reachable NewOrderModal 600 wideTrack runningModal
  /\ 0 <= timeLeft (comp runningModal) <= 600.
Proof.
  assert (H : reachable NewOrderModal 600 wideTrack runningModal)
    by (exists (Mount props1 :: ticks 1 30); reflexivity).
  split; [lia|]. split; [exact H|].
  exact (proj1 (timeLeft_within_duration NewOrderModal 600 wideTrack runningModal
                  ltac:(lia) H)).
Defined.

Lemma at_most_one_active_interval_witness :
  reachable NewOrderModal 600 wideTrack runningModal
  /\ (mounted runningModal = false -> timers (win runningModal) = ∅).
Proof.
  assert (H : reachable NewOrderModal 600 wideTrack runningModal)
    by (exists (Mount props1 :: ticks 1 30); reflexivity).
  split; [exact H|].
  exact (proj2 (at_most_one_active_interval NewOrderModal 600 wideTrack runningModal H)).
Defined.

Lemma screen_render_restarts_countdown_witness :
  screenReachable wideTrack draggedScreen
  /\ selectedOrder draggedScreen = Some order1
  /\ status order1 = NEW
  /\ timeLeft (comp (detail (fst (screenStep wideTrack draggedScreen ScreenRender)))) = 150.
Proof.
  assert (H : screenReachable wideTrack draggedScreen)
    by (exists [CardClick order1; ModalEvent (SwipeStart 0); ModalEvent (SwipeMove 300)];
        reflexivity).
  assert (Hs : selectedOrder draggedScreen = Some order1) by (vm_compute; reflexivity).
  split; [exact H|]. split; [exact Hs|]. split; [reflexivity|].
  exact (proj1 (proj2 (proj2 (screen_render_restarts_countdown wideTrack draggedScreen order1
                                H Hs eq_refl)))).
Defined.

Lemma details_requests_follow_lifecycle_witness :
  screenReachable wideTrack draggedScreen
  /\ In (UpdateStatus "ORD-1" PREPARING)
       (snd (screenStep wideTrack draggedScreen (ModalEvent SwipeEnd)))
  /\ exists o, selectedOrder draggedScreen = Some o /\ "ORD-1" = order_id o
               /\ requestedEdge (status o) PREPARING
               /\ status o <> COMPLETED /\ status o <> REJECTED.
Proof.
  assert (H : screenReachable wideTrack draggedScreen)
    by (exists [CardClick order1; ModalEvent (SwipeStart 0); ModalEvent (SwipeMove 300)];
        reflexivity).
  assert (Hin : In (UpdateStatus "ORD-1" PREPARING)
                  (snd (screenStep wideTrack draggedScreen (ModalEvent SwipeEnd))))
    by (vm_compute; left; reflexivity).
  split; [exact H|]. split; [exact Hin|].
  exact (details_requests_follow_lifecycle wideTrack draggedScreen (ModalEvent SwipeEnd)
           "ORD-1" PREPARING H Hin).
Defined.

Lemma release_without_order_keeps_gesture_witness :
  isSwiping (set_isSwiping true (initialComponent 600)) = true
  /\ order closedProps = None
  /\ sliderRendered NewOrderModal props2 = true
  /\ order props2 = Some order2
  /\ snd (run NewOrderModal 600 wideTrack
            (mkModal true props1 (set_isSwiping true (initialComponent 600)) freshWindow)
            [Render closedProps; SwipeEnd; Render props2; SwipeMove 300; SwipeEnd])
     = (if overThreshold
             (clampOffset (300 - swipeStartX (set_isSwiping true (initialComponent 600)))
                (sliderWidth wideTrack - handleWidth wideTrack))
             (sliderWidth wideTrack)
        then [UpdateStatus (order_id order2) PREPARING] else []).
Proof.
  split; [reflexivity|]. split; [reflexivity|]. split; [reflexivity|]. split; [reflexivity|].
  exact (proj1 (proj2 (release_without_order_keeps_gesture 600 wideTrack props1 closedProps
                         props2 (set_isSwiping true (initialComponent 600)) freshWindow
                         order2 300 eq_refl eq_refl eq_refl eq_refl))).
Defined.

Lemma timeAgo_months_read_as_minutes_witness :
  2592000 < elapsedSeconds 6000000000 0 <= 31536000
  /\ exists timestamp',
       60 < elapsedSeconds 6000000000 timestamp' <= 3600
       /\ formatTimeAgo 6000000000 timestamp' = formatTimeAgo 6000000000 0.
Proof.
  assert (H : 2592000 < elapsedSeconds 6000000000 0 <= 31536000)
    by (vm_compute; split; [reflexivity | discriminate]).
  split; [exact H|].
  exact (timeAgo_months_read_as_minutes 6000000000 0 H).
Defined.

(** ** Which orders are timed *)

(** X15.  [NewOrderModal] starts its countdown for any order it is opened
    with, whatever the status, and requests [REJECTED] for it at tick [D];
    [OrderDetailsModal] starts a countdown only for an order that is [NEW]:
    mounted on any other order it has no active interval and interval
    firings never make it request anything. *)
Theorem countdown_depends_on_status_in_details_only
  (D : Z) (g : Geometry) (o : Order) (f : nat) (n : positive) :
  1 <= D ->
  snd (run NewOrderModal D g
         (fst (step NewOrderModal D g (unmountedModal D (mkWindow ∅ n))
                 (Mount (mkProps true (Some o) f))))
         (ticks n (Z.to_nat D)))
  = [UpdateStatus (order_id o) REJECTED]
  /\ (status o <> NEW ->
      forall opened es,
        forallb isIntervalFires es = true ->
        noTimer (fst (step OrderDetailsModal D g (unmountedModal D (mkWindow ∅ n))
                        (Mount (mkProps opened (Some o) f))))
        /\ snd (run OrderDetailsModal D g
                  (fst (step OrderDetailsModal D g (unmountedModal D (mkWindow ∅ n))
                          (Mount (mkProps opened (Some o) f))))
                  es) = []).
Proof.
  intros HD. split.
  - rewrite mount_starts_timer by reflexivity. cbn [fst].
    set (p := mkProps true (Some o) f).
    set (c0 := set_timerIntervalRef (Some n) (initialComponent D)).
    set (w0 := mkWindow {[ n := p ]} (Pos.succ n)).
    destruct (countdown_from NewOrderModal D g true p c0 w0 n p o eq_refl eq_refl
                ltac:(simpl; lia) eq_refl) as [_ Hlast].
    change (timeLeft c0) with D in Hlast. now rewrite Hlast.
  - intros Hst opened es Hes.
    assert (Hc : timerCondition OrderDetailsModal (mkProps opened (Some o) f) = false).
    { unfold timerCondition, statusIs. cbn [order isOpen].
      rewrite bool_decide_eq_false_2 by assumption. apply andb_false_r. }
    assert (Hm : step OrderDetailsModal D g (unmountedModal D (mkWindow ∅ n))
                   (Mount (mkProps opened (Some o) f))
                 = (mkModal true (mkProps opened (Some o) f) (initialComponent D)
                      (mkWindow ∅ n), [])).
    { cbn [step mounted unmountedModal win]. unfold timerEffect. now rewrite Hc. }
    rewrite Hm. cbn [fst]. split; [reflexivity|].
    now rewrite run_ticks_noTimer.
Qed.

(** ** A details view opened anew *)

(** X16.  Under [OrdersScreen] a details view opened while none is open is a
    new component: no gesture is active and the stored offset is 0, so
    nothing of an earlier view's drag is left and a press directly followed by
    a release requests nothing; the remaining time is the full 150 ticks, on
    one new interval when the order is [NEW] and on none otherwise. *)
Theorem details_open_starts_fresh (g : Geometry) (scr : OrdersScreen) (o : Order) :
  screenReachable g scr ->
  selectedOrder scr = None ->
  let scr' := fst (screenStep g scr (CardClick o)) in
  isSwiping (comp (detail scr')) = false
  /\ swipeDeltaRef (comp (detail scr')) = 0
  /\ timeLeft (comp (detail scr')) = 150
  /\ (status o = NEW ->
      timers (win (detail scr'))
      = {[ nextTimer (win (detail scr)) := detailProps o (S (renderCount scr)) ]})
  /\ (status o <> NEW -> noTimer (detail scr'))
  /\ (0 <= sliderWidth g < 2 ^ 31 ->
      forall x, snd (screenRun g scr' [ModalEvent (SwipeStart x); ModalEvent SwipeEnd]) = []).
Proof.
  intros Hr Hsel scr'.
  pose proof (screenReachable_inv g scr Hr) as ([_ Hu] & Hnone & _).
  assert (Hb : mounted (detail scr) = false) by now apply Hnone.
  assert (Hempty : timers (win (detail scr)) = ∅) by now apply Hu.
  assert (Hdet : detail scr'
                 = mkModal true (detailProps o (S (renderCount scr)))
                     (fst (timerEffect OrderDetailsModal 150 (detailProps o (S (renderCount scr)))
                             (initialComponent 150) (win (detail scr))))
                     (snd (timerEffect OrderDetailsModal 150 (detailProps o (S (renderCount scr)))
                             (initialComponent 150) (win (detail scr))))).
  { subst scr'. cbn [screenStep fst detail]. unfold renderScreen. rewrite Hb.
    destruct (detail scr) as [b p c w]. cbn [mounted] in Hb. subst b.
    cbn [step mounted win fst]. now destruct (timerEffect _ _ _ _ _). }
  assert (Hcond : timerCondition OrderDetailsModal (detailProps o (S (renderCount scr)))
                  = bool_decide (status o = NEW)) by reflexivity.
  rewrite timerEffect_from_empty in Hdet by assumption. rewrite Hcond in Hdet.
  split; [|split; [|split; [|split; [|split]]]].
  - rewrite Hdet. now destruct (bool_decide (status o = NEW)).
  - rewrite Hdet. now destruct (bool_decide (status o = NEW)).
  - rewrite Hdet. now destruct (bool_decide (status o = NEW)).
  - intros Hst. rewrite Hdet. now rewrite bool_decide_eq_true_2.
  - intros Hst. unfold noTimer. rewrite Hdet. now rewrite bool_decide_eq_false_2.
  - intros Hw x. cbn [screenRun screenStep userEvent].
    assert (Hstep : forall m, swipeDeltaRef (comp m) = 0 ->
              snd (step OrderDetailsModal 150 g
                     (fst (step OrderDetailsModal 150 g m (SwipeStart x))) SwipeEnd) = []
              /\ snd (step OrderDetailsModal 150 g m (SwipeStart x)) = []).
    { intros [b p c w] Hd. cbn [comp] in Hd. cbn [step mounted props comp win].
      destruct (b && sliderRendered OrderDetailsModal p) eqn:E; cbn [fst snd step mounted props comp win].
      - split; [|reflexivity]. unfold handleSwipeEnd. destruct (negb _); [reflexivity|].
        destruct (refWidth OrderDetailsModal p (sliderWidth g)) eqn:Er; [|reflexivity].
        cbn [set_isSwiping swipeDeltaRef]. rewrite handleSwipeStart_delta, Hd.
        unfold refWidth in Er. destruct (sliderRendered OrderDetailsModal p); [|discriminate].
        inversion Er; subst. rewrite not_overThreshold_nonpos by (auto; lia). reflexivity.
      - split; [|reflexivity]. destruct b; [|reflexivity].
        unfold handleSwipeEnd. destruct (negb _); [reflexivity|].
        destruct (refWidth OrderDetailsModal p (sliderWidth g)) eqn:Er; [|reflexivity].
        cbn [set_isSwiping swipeDeltaRef]. rewrite Hd.
        unfold refWidth in Er. destruct (sliderRendered OrderDetailsModal p); [|discriminate].
        inversion Er; subst. rewrite not_overThreshold_nonpos by (auto; lia). reflexivity. }
    assert (Hd0 : swipeDeltaRef (comp (detail scr')) = 0).
    { rewrite Hdet. now destruct (bool_decide (status o = NEW)). }
    destruct (Hstep (detail scr') Hd0) as [H2 H1].
    destruct (step OrderDetailsModal 150 g (detail scr') (SwipeStart x)) as [m1 c1].
    cbn [fst snd] in *. subst c1. cbn [detail].
    destruct (step OrderDetailsModal 150 g m1 SwipeEnd) as [m2 c2]. cbn [snd] in H2. subst c2.
    reflexivity.
Qed.

Lemma countdown_depends_on_status_in_details_only_witness :
  1 <= 150
  /\ noTimer (fst (step OrderDetailsModal 150 wideTrack (unmountedModal 150 (mkWindow ∅ 1%positive))
                     (Mount preparingProps))).
Proof.
  split; [lia|].
  refine (proj1 (proj2 (countdown_depends_on_status_in_details_only 150 wideTrack
                          (mkOrder 3 "ORD-3" PREPARING) 0 1%positive ltac:(lia))
                   _ true [IntervalFires 1] eq_refl)).
  discriminate.
Defined.

Lemma details_open_starts_fresh_witness :
  screenReachable wideTrack initialScreen
  /\ selectedOrder initialScreen = None
  /\ swipeDeltaRef (comp (detail (fst (screenStep wideTrack initialScreen (CardClick order1))))) = 0.
Proof.
  assert (H : screenReachable wideTrack initialScreen) by (exists []; reflexivity).
  split; [exact H|]. split; [reflexivity|].
  exact (proj1 (proj2 (details_open_starts_fresh wideTrack initialScreen order1 H eq_refl))).
Defined.
